(** * Adobe license monitor: a shallow embedding and its properties

    The repository holds two scripts with the same pipeline (fetch the users
    of the organisation page by page, count their license groups per cleaned
    product name, format a report):

    - [adobe_license_monitor.py], embedded in [Module Monitor];
    - [refresh_adobe_license_monitor.py], embedded in [Module Refresh].

    Python values are modelled as follows.  A [str] is a list of Unicode code
    points, an [int] that counts is a [nat], an HTTP status or a number of
    seconds is a [Z], the insertion-ordered [dict] is an association list
    that keeps the order of first insertion, and the outside world (the HTTP
    server, [randint], [sleep]) is an explicit environment together with a
    trace of the events issued so far.  [print] is not modelled. *)

From Stdlib Require Import List Bool Arith ZArith NArith Lia String Ascii.
From Stdlib Require Import Permutation.
From Stdlib Require Decimal DecimalNat.
Import ListNotations.

Set Implicit Arguments.

(** ** Python strings *)

Module PyStr.

(** A code point, and a string as the sequence of its code points. *)
Definition char := N.
Definition str := list char.

(** A literal of the source, written as a Rocq string of ASCII characters. *)
Definition lit (s : string) : str :=
  List.map N_of_ascii (list_ascii_of_string s).

(** [a == b] on strings. *)
Fixpoint eqb (a b : str) : bool :=
  match a, b with
  | [], [] => true
  | x :: a', y :: b' => N.eqb x y && eqb a' b'
  | _, _ => false
  end.

(** [s.startswith(pre)]. *)
Fixpoint startswith (pre s : str) : bool :=
  match pre, s with
  | [], _ => true
  | x :: pre', y :: s' => N.eqb x y && startswith pre' s'
  | _ :: _, [] => false
  end.

(** [pat in s]: [pat] occurs in [s] as a substring. *)
Fixpoint contains (pat s : str) : bool :=
  match s with
  | [] => startswith pat []
  | _ :: s' => startswith pat s || contains pat s'
  end.

(** [s.replace(old, new)] for a non-empty [old]: the occurrences of [old]
    are found from left to right and do not overlap.  [skip] counts the
    characters of a matched occurrence that are still to be passed over. *)
Fixpoint replace_from (old new : str) (skip : nat) (s : str) : str :=
  match s with
  | [] => []
  | c :: s' =>
      match skip with
      | S k => replace_from old new k s'
      | O =>
          if startswith old s
          then new ++ replace_from old new (List.length old - 1) s'
          else c :: replace_from old new 0 s'
      end
  end.

(** [s.replace(old, new)]; with an empty [old] Python puts [new] before
    every character and at the end. *)
Definition replace (old new s : str) : str :=
  match old with
  | [] => new ++ flat_map (fun c => c :: new) s
  | _ :: _ => replace_from old new 0 s
  end.

(** [c.isspace()] for one code point: the characters [str.strip()] removes. *)
Definition isspace (c : char) : bool :=
  ((9 <=? c) && (c <=? 13) || (28 <=? c) && (c <=? 32)
   || (c =? 133) || (c =? 160) || (c =? 5760)
   || (8192 <=? c) && (c <=? 8202)
   || (c =? 8232) || (c =? 8233) || (c =? 8239) || (c =? 8287)
   || (c =? 12288))%N.

Fixpoint lstrip (s : str) : str :=
  match s with
  | [] => []
  | c :: s' => if isspace c then lstrip s' else s
  end.

Definition rstrip (s : str) : str := rev (lstrip (rev s)).

(** [s.strip()]. *)
Definition strip (s : str) : str := rstrip (lstrip s).

(** [sep.join(parts)]. *)
Fixpoint join (sep : str) (parts : list str) : str :=
  match parts with
  | [] => []
  | [p] => p
  | p :: rest => p ++ sep ++ join sep rest
  end.

(** [str(n)] for a non-negative [int]: its decimal digits. *)
Fixpoint digits (u : Decimal.uint) : str :=
  match u with
  | Decimal.Nil => []
  | Decimal.D0 u' => 48%N :: digits u'
  | Decimal.D1 u' => 49%N :: digits u'
  | Decimal.D2 u' => 50%N :: digits u'
  | Decimal.D3 u' => 51%N :: digits u'
  | Decimal.D4 u' => 52%N :: digits u'
  | Decimal.D5 u' => 53%N :: digits u'
  | Decimal.D6 u' => 54%N :: digits u'
  | Decimal.D7 u' => 55%N :: digits u'
  | Decimal.D8 u' => 56%N :: digits u'
  | Decimal.D9 u' => 57%N :: digits u'
  end.

Definition of_nat (n : nat) : str := digits (Nat.to_uint n).

End PyStr.

Import PyStr.

(** ** The group-name cleanup

    Both scripts hold the same chain of [replace] calls followed by
    [strip()] (adobe_license_monitor.py lines 107-117,
    refresh_adobe_license_monitor.py lines 91-101). *)

Definition cleaned_group (group : str) : str :=
  strip
    (replace (lit " 3D Collection Configuration") []
    (replace (lit " DC") []
    (replace (lit "Single App") []
    (replace (lit " - 1024 GB") []
    (replace (lit " - 100 GB") []
    (replace (lit " plan with 1TB") []
    (replace (lit "configuration") []
    (replace (lit "Default ") [] group)))))))).

(** The substrings the chain removes, in the order of the calls. *)
Definition REMOVED : list str :=
  [ lit "Default "; lit "configuration"; lit " plan with 1TB";
    lit " - 100 GB"; lit " - 1024 GB"; lit "Single App"; lit " DC";
    lit " 3D Collection Configuration" ].

Definition mentions_removed (s : str) : bool :=
  existsb (fun pat => contains pat s) REMOVED.

(** ** Python dictionaries

    A [dict] iterates in the order in which its keys were first inserted,
    and [summarize_licenses] reads [license_counts.items()] in that order:
    the model is an association list with one entry per key. *)

Module PyDict.
Section Dict.

Variable V : Type.

Definition dict := list (str * V).

(** The entry of key [k], when there is one. *)
Fixpoint lookup (d : dict) (k : str) : option V :=
  match d with
  | [] => None
  | (k', v) :: d' => if eqb k' k then Some v else lookup d' k
  end.

(** [d.get(k, default)] with a default of the type of the values. *)
Definition get (d : dict) (k : str) (default : V) : V :=
  match lookup d k with
  | Some v => v
  | None => default
  end.

(** [d[k] = v]: an existing key keeps its place, a new key goes last. *)
Fixpoint set (d : dict) (k : str) (v : V) : dict :=
  match d with
  | [] => [(k, v)]
  | (k', v') :: d' =>
      if eqb k' k then (k', v) :: d' else (k', v') :: set d' k v
  end.

Definition keys (d : dict) : list str := List.map fst d.

End Dict.
End PyDict.

Import PyDict.

(** ** Data model *)

(** A user record of the API; [user.get('groups', [])] reads a key that may
    be absent. *)
Record user := { groups : option (list str) }.

Definition user_groups (u : user) : list str :=
  match groups u with
  | Some gs => gs
  | None => []
  end.

(** What [LICENSE_MAPPING.get(license_name, "Unknown")] returns: a number of
    seats or the text of the default. *)
Inductive total_seats :=
| Seats (n : nat)
| Text (s : str).

(** How an f-string renders it. *)
Definition format_total (t : total_seats) : str :=
  match t with
  | Seats n => of_nat n
  | Text s => s
  end.

(** ** The report lines

    The second loop of [summarize_licenses] is the same text in both
    scripts (adobe_license_monitor.py lines 120-127,
    refresh_adobe_license_monitor.py lines 104-111); the allocation table is
    a parameter here, and each script passes its own. *)

Section Report.

Variable license_mapping : dict nat.

Definition total_of (license_name : str) : total_seats :=
  match lookup license_mapping license_name with
  | Some n => Seats n
  | None => Text (lit "Unknown")
  end.

(** [unit = "License" if license_name != "Adobe Stock Credits" else "Credits"]
    then [unit += "s" if used > 1 else ""]. *)
Definition unit_of (license_name : str) (used : nat) : str :=
  let unit :=
    if negb (eqb license_name (lit "Adobe Stock Credits"))
    then lit "License" else lit "Credits" in
  unit ++ (if 1 <? used then lit "s" else []).

(** [f"{license_name}: {used} of {total} {unit}"]. *)
Definition summary_line (item : str * nat) : str :=
  let (license_name, used) := item in
  let total := total_of license_name in
  let unit := unit_of license_name used in
  license_name ++ lit ": " ++ of_nat used ++ lit " of "
    ++ format_total total ++ lit " " ++ unit.

Definition summary (license_counts : dict nat) : list str :=
  List.map summary_line license_counts.

(** ["\n".join(summary)]. *)
Definition report (license_counts : dict nat) : str :=
  join [10%N] (summary license_counts).

End Report.

(** ** The outside world

    One page of the user-management API, as the scripts read it:
    [r['users']] and [r['lastPage']].  A response with status 200 is taken
    to carry such a page, whose users hold a list of strings as [groups]
    or no such key.  Any other body is outside the model: one that lacks
    one of the two keys, or in which [groups] is null, makes the scripts
    raise KeyError or TypeError where nothing catches it, and one that is
    not JSON does so in refresh_adobe_license_monitor.py.  The properties
    below speak of runs on well-formed pages only, and none of them says
    that a script never raises. *)
Record page := { users : list user; lastPage : bool }.

(** The [Retry-After] header of a response, by what
    [int(response.headers.get('Retry-After', default))] does with it. *)
Inductive retry_after :=
| NoRetryAfter                 (* no such header: the default is used *)
| RetryAfterInt (secs : Z)     (* a text that [int()] reads as [secs] *)
| RetryAfterOther.             (* any other text, such as an HTTP date:
                                  [int()] raises ValueError *)

Record response :=
  { status_code : Z; retry_after_header : retry_after; json : page }.

(** [requests.request(...)] or [requests.get(...)] returns or raises. *)
Inductive outcome :=
| Responds (r : response)
| Raises.

(** What a run does to the world, in order. *)
Inductive event :=
| Request (url : str)
| Sleep (secs : Z).

Definition trace := list event.

(** A value of [randint(0, 5)]. *)
Inductive jitter := J0 | J1 | J2 | J3 | J4 | J5.

Definition jitter_value (j : jitter) : Z :=
  match j with
  | J0 => 0 | J1 => 1 | J2 => 2 | J3 => 3 | J4 => 4 | J5 => 5
  end%Z.

(** The environment of a run: the server answers a request knowing all
    that happened before it, so any deterministic or scripted server is an
    instance. *)
Record world :=
  { http : trace -> str -> outcome;
    randint_0_5 : trace -> jitter;
    ADOBE_ORG_ID : option str }.

(** [f"{os.getenv('ADOBE_ORG_ID')}"]: an unset variable prints as [None]. *)
Definition format_env (v : option str) : str :=
  match v with
  | Some s => s
  | None => lit "None"
  end.

(** The URL of a page of users; both scripts build the same text. *)
Definition users_url (w : world) (page_index : nat) : str :=
  lit "https://usermanagement.adobe.io/v2/usermanagement/users"
    ++ lit "/" ++ format_env (ADOBE_ORG_ID w) ++ lit "/" ++ of_nat page_index.

(** What a call for one page gives the pagination loop: the decoded page,
    [None], or an exception that nothing catches. *)
Inductive call_result :=
| Json (r : page)
| PyNone
| Uncaught.

(** What [get_users_in_org] gives its caller. *)
Inductive fetched :=
| Returned (users_list : list user)
| Propagated.

(** The longest sleep, in seconds, that CPython hands to the clock of the
    platform without an error; the clock itself may refuse lengths
    somewhat below, depending on its reading. *)
Definition SLEEP_MAX : Z := 9223372035.

(** [time.sleep(secs)] raises ValueError on a negative length, and
    OverflowError or OSError on a length that is too large. *)
Definition sleep_raises (secs : Z) : bool :=
  (secs <? 0)%Z || (SLEEP_MAX <? secs)%Z.

(** ** Slack and the token endpoint

    [requests.post(webhook_url, json=payload)] returns a response, of which
    [send_slack_alert] reads the status, or raises; nothing catches what it
    raises. *)
Inductive slack_outcome :=
| SlackResponds (status : Z)
| SlackRaises.

(** [session.fetch_token(...)] returns a token dictionary, of which
    [get_access_token] reads [token.get('access_token')], or raises. *)
Inductive token_outcome :=
| TokenDict (access_token : option str)
| TokenRaises.

(** The environment of a whole run of a script. *)
Record site :=
  { adobe : world;
    slack : str -> slack_outcome;
    token_endpoint : token_outcome }.

(** How a script ends: at the end of its text, or on an exception that
    nothing catches. *)
Inductive ending := Finished | Crashed.

(** What a run did: the events of the fetch, the texts handed to the Slack
    webhook, in order, and how it ended. *)
Record run := { fetch_events : trace; posted : list str; ended : ending }.

(** [send_slack_alert(message)], the same text in both scripts: one POST
    whose payload is [{"text": message}]; the status only chooses the line
    that is printed. *)
Definition send_slack_alert (s : site) (message : str) : list str * ending :=
  match slack s message with
  | SlackResponds _ => ([message], Finished)
  | SlackRaises => ([message], Crashed)
  end.

(** [f":adobe: *Adobe License Report* :adobe:\n{summary}"]. *)
Definition alert_text (summary : str) : str :=
  lit ":adobe: *Adobe License Report* :adobe:" ++ [10%N] ++ summary.

(** ** adobe_license_monitor.py *)

Module Monitor.

Definition RETRYABLE : list Z := [429; 502; 503; 504]%Z.

(** [response.status_code in [429, 502, 503, 504]]. *)
Definition retryable (code : Z) : bool :=
  existsb (fun c => Z.eqb c code) RETRYABLE.

(** [int(response.headers.get('Retry-After', (2 ** attempt) + randint(0, 5)))];
    [None] when [int()] raises. *)
Definition retry_wait_of (w : world) (t : trace) (attempt : Z)
    (r : response) : option Z :=
  let default := (2 ^ attempt + jitter_value (randint_0_5 w t))%Z in
  match retry_after_header r with
  | NoRetryAfter => Some default
  | RetryAfterInt secs => Some secs
  | RetryAfterOther => None
  end.

(** The [for attempt in range(1, 5)] loop of [make_call], over the
    attempts still to run. *)
Fixpoint attempts (w : world) (url : str) (range : list Z) (t : trace)
    : call_result * trace :=
  match range with
  | [] => (PyNone, t)                      (* maximum retries reached *)
  | attempt :: rest =>
      let t1 := t ++ [Request url] in
      match http w t url with
      | Raises => (PyNone, t1)             (* except Exception *)
      | Responds r =>
          if (status_code r =? 200)%Z then (Json (json r), t1)
          else if retryable (status_code r) then
            match retry_wait_of w t1 attempt r with
            | None => (PyNone, t1)         (* ValueError, caught *)
            | Some retry_wait =>
                if (attempt <? 4)%Z then
                  if sleep_raises retry_wait then (Uncaught, t1)
                  else attempts w url rest (t1 ++ [Sleep retry_wait])
                else attempts w url rest t1
            end
          else (PyNone, t1)                (* unexpected HTTP status *)
      end
  end.

(** [make_call('GET', url)]. *)
Definition make_call (w : world) (url : str) (t : trace)
    : call_result * trace :=
  attempts w url [1; 2; 3; 4]%Z t.

(** The [while not done] loop of [get_users_in_org]; [None] when [fuel]
    iterations did not end it. *)
Fixpoint get_users_loop (w : world) (fuel : nat) (page_index : nat)
    (users_list : list user) (t : trace) : option (fetched * trace) :=
  match fuel with
  | O => None
  | S fuel' =>
      match make_call w (users_url w page_index) t with
      | (Json r, t') =>
          let users_list := users_list ++ users r in
          if lastPage r then Some (Returned users_list, t')
          else get_users_loop w fuel' (page_index + 1) users_list t'
      | (PyNone, t') => Some (Returned users_list, t')
      | (Uncaught, t') => Some (Propagated, t')
      end
  end.

Definition get_users_in_org (w : world) (fuel : nat)
    : option (fetched * trace) :=
  get_users_loop w fuel 0 [] [].

Definition license_mapping : dict nat :=
  [ (lit "Acrobat Pro", 316); (lit "All Apps plan", 268);
    (lit "Photoshop", 14); (lit "Audition", 2); (lit "Premiere Pro", 22);
    (lit "Illustrator", 7); (lit "Lightroom", 1); (lit "Substance", 4) ].

(** The body of the inner loop, on one group of one user. *)
Definition count_group (license_counts : dict nat) (group : str) : dict nat :=
  let cleaned := cleaned_group group in
  set license_counts cleaned (get license_counts cleaned 0 + 1).

Definition count_user (license_counts : dict nat) (u : user) : dict nat :=
  fold_left count_group (user_groups u) license_counts.

(** The dictionary after the first loop of [summarize_licenses]. *)
Definition license_counts (users : list user) : dict nat :=
  fold_left count_user users [].

Definition summarize_licenses (users : list user) : str :=
  report license_mapping (license_counts users).

(** The [__main__] block: no alert when the list of users is empty. *)
Definition main (s : site) (fuel : nat) : option run :=
  match get_users_in_org (adobe s) fuel with
  | None => None
  | Some (Propagated, t) =>
      Some {| fetch_events := t; posted := []; ended := Crashed |}
  | Some (Returned users, t) =>
      match users with
      | [] => Some {| fetch_events := t; posted := []; ended := Finished |}
      | _ :: _ =>
          let summary := summarize_licenses users in
          let (posts, e) := send_slack_alert s (alert_text summary) in
          Some {| fetch_events := t; posted := posts; ended := e |}
      end
  end.

End Monitor.

(** ** refresh_adobe_license_monitor.py *)

Module Refresh.

(** The [while True] loop of [get_users_in_org]: one [requests.get] per
    iteration, no retry, and nothing catches what it raises. *)
Fixpoint get_users_loop (w : world) (fuel : nat) (page_index : nat)
    (users_list : list user) (t : trace) : option (fetched * trace) :=
  match fuel with
  | O => None
  | S fuel' =>
      let url := users_url w page_index in
      let t' := t ++ [Request url] in
      match http w t url with
      | Raises => Some (Propagated, t')
      | Responds r =>
          if (status_code r =? 200)%Z then
            let data := json r in
            let users_list := users_list ++ users data in
            if lastPage data then Some (Returned users_list, t')
            else get_users_loop w fuel' (page_index + 1) users_list t'
          else Some (Returned users_list, t')
      end
  end.

Definition get_users_in_org (w : world) (fuel : nat)
    : option (fetched * trace) :=
  get_users_loop w fuel 0 [] [].

Definition EXCLUDED_GROUPS : list str :=
  [ lit "Default Acrobat Pro DC configuration_B90DF18-provisioning";
    lit "Default All Apps plan - 100 GB configuration_C9431CF-provisioning";
    lit "Default Photoshop - 100 GB configuration_0A61F1F-provisioning";
    lit "Default Audition - 1024 GB configuration_4A18C28-provisioning";
    lit "_product_admin_Custom fonts (VIP,VIPMP - A1406BFDEA1D8CDBEDEA)";
    lit "_admin_Default Custom fonts configuration";
    lit "Default Premiere Pro - 1024 GB configuration_E71BE78-provisioning";
    lit "Default Illustrator - 100 GB configuration_A69B937-provisioning";
    lit "Default Lightroom Single App plan with 1TB configuration_6FBBDC1-provisioning";
    lit "Acrobat Users";
    lit "Default Custom fonts configuration" ].

Definition LICENSE_MAPPING : dict nat :=
  [ (lit "Acrobat Pro", 316); (lit "All Apps plan", 268);
    (lit "Photoshop", 14); (lit "Audition", 2); (lit "Premiere Pro", 22);
    (lit "Illustrator", 7); (lit "Lightroom", 1); (lit "Substance", 4) ].

(** [group in EXCLUDED_GROUPS]. *)
Definition is_excluded (group : str) : bool :=
  existsb (fun x => eqb x group) EXCLUDED_GROUPS.

(** The body of the inner loop: [continue] on an excluded group. *)
Definition count_group (license_counts : dict nat) (group : str) : dict nat :=
  if is_excluded group then license_counts
  else
    let cleaned := cleaned_group group in
    set license_counts cleaned (get license_counts cleaned 0 + 1).

Definition count_user (license_counts : dict nat) (u : user) : dict nat :=
  fold_left count_group (user_groups u) license_counts.

Definition license_counts (users : list user) : dict nat :=
  fold_left count_user users [].

Definition summarize_licenses (users : list user) : str :=
  report LICENSE_MAPPING (license_counts users).

(** [get_access_token()]: the [access_token] of the token dictionary, which
    may be absent; [None] here when [fetch_token] raises. *)
Definition get_access_token (s : site) : option (option str) :=
  match token_endpoint s with
  | TokenDict access_token => Some access_token
  | TokenRaises => None
  end.

(** [if token:] on [None] or a string. *)
Definition truthy (token : option str) : bool :=
  match token with
  | Some (_ :: _) => true
  | Some [] | None => false
  end.

(** The [__main__] block: the token first, then as in the other script. *)
Definition main (s : site) (fuel : nat) : option run :=
  match get_access_token s with
  | None => Some {| fetch_events := []; posted := []; ended := Crashed |}
  | Some token =>
      if truthy token then
        match get_users_in_org (adobe s) fuel with
        | None => None
        | Some (Propagated, t) =>
            Some {| fetch_events := t; posted := []; ended := Crashed |}
        | Some (Returned users, t) =>
            match users with
            | [] =>
                Some {| fetch_events := t; posted := []; ended := Finished |}
            | _ :: _ =>
                let summary := summarize_licenses users in
                let (posts, e) := send_slack_alert s (alert_text summary) in
                Some {| fetch_events := t; posted := posts; ended := e |}
            end
        end
      else Some {| fetch_events := []; posted := []; ended := Finished |}
  end.

End Refresh.

(** ** Vocabulary of the properties *)

(** The group strings the aggregator counts: those of every user, in order,
    less the ones of an exclusion list. *)
Definition counted (excluded : list str) (users : list user) : list str :=
  filter (fun g => negb (existsb (fun x => eqb x g) excluded))
    (flat_map user_groups users).

(** How many of these strings clean up to the product name [product]. *)
Definition occurrences (product : str) (group_names : list str) : nat :=
  List.length (filter (fun g => eqb (cleaned_group g) product) group_names).

(** The sum of the counts of a dictionary. *)
Definition total_count (d : dict nat) : nat :=
  fold_right (fun item acc => snd item + acc) 0 d.

Definition is_request (e : event) : bool :=
  match e with
  | Request _ => true
  | Sleep _ => false
  end.

(** The number of HTTP requests of a trace. *)
Definition requests_made (t : trace) : nat :=
  List.length (filter is_request t).

(** A request that fails for good: it raised, or its status is neither 200
    nor one of the retryable codes. *)
Definition failed (o : outcome) : bool :=
  match o with
  | Raises => true
  | Responds r =>
      negb (status_code r =? 200)%Z && negb (Monitor.retryable (status_code r))
  end.

(** The same without the exception. *)
Definition failed_status (o : outcome) : bool :=
  match o with
  | Raises => false
  | Responds r =>
      negb (status_code r =? 200)%Z && negb (Monitor.retryable (status_code r))
  end.

(** The page a request brought, when the server answered it with 200. *)
Definition page_of (o : outcome) : list page :=
  match o with
  | Responds r => if (status_code r =? 200)%Z then [json r] else []
  | Raises => []
  end.

Section Replay.

Variable w : world.

(** The pages the requests of [todo] brought, when [todo] is replayed
    after the events [done]. *)
Fixpoint pages_in (done todo : trace) : list page :=
  match todo with
  | [] => []
  | Request url :: rest =>
      page_of (http w done url) ++ pages_in (done ++ [Request url]) rest
  | Sleep secs :: rest => pages_in (done ++ [Sleep secs]) rest
  end.

(** No request of [todo] meets [bad], when replayed after [done]. *)
Fixpoint quiet (bad : outcome -> bool) (done todo : trace) : bool :=
  match todo with
  | [] => true
  | Request url :: rest =>
      negb (bad (http w done url)) && quiet bad (done ++ [Request url]) rest
  | Sleep secs :: rest => quiet bad (done ++ [Sleep secs]) rest
  end.

End Replay.

(** The shape both pagination loops share: [call] fetches one page. *)
Section Pagination.

Variable call : str -> trace -> call_result * trace.
Variable url_of : nat -> str.

Fixpoint paginate (fuel : nat) (page_index : nat)
    (users_list : list user) (t : trace) : option (fetched * trace) :=
  match fuel with
  | O => None
  | S fuel' =>
      match call (url_of page_index) t with
      | (Json r, t') =>
          if lastPage r then Some (Returned (users_list ++ users r), t')
          else paginate fuel' (page_index + 1) (users_list ++ users r) t'
      | (PyNone, t') => Some (Returned users_list, t')
      | (Uncaught, t') => Some (Propagated, t')
      end
  end.

(** [serves t i ps t']: from the trace [t], the calls for the pages
    [i], [i + 1], ... bring the pages [ps] one after the other and leave
    the trace [t']. *)
Inductive serves : trace -> nat -> list page -> trace -> Prop :=
| serves_nil : forall t i, serves t i [] t
| serves_cons : forall t i p t1 ps t2,
    call (url_of i) t = (Json p, t1) ->
    serves t1 (i + 1) ps t2 ->
    serves t i (p :: ps) t2.

End Pagination.

(** The single request of an iteration of the loop of
    refresh_adobe_license_monitor.py, as a call. *)
Definition get_page (w : world) (url : str) (t : trace)
    : call_result * trace :=
  match http w t url with
  | Raises => (Uncaught, t ++ [Request url])
  | Responds r =>
      if (status_code r =? 200)%Z then (Json (json r), t ++ [Request url])
      else (PyNone, t ++ [Request url])
  end.

(** A scripted server: the n-th request of a run gets the n-th answer of
    the script, and a request beyond the script raises. *)
Definition scripted (answers : list outcome) : world :=
  {| http := fun t _ => nth (requests_made t) answers Raises;
     randint_0_5 := fun _ => J0;
     ADOBE_ORG_ID := Some (lit "ORG") |}.

Definition answer (code : Z) (h : retry_after) (p : page) : outcome :=
  Responds {| status_code := code; retry_after_header := h; json := p |}.

Definition no_page : page := {| users := []; lastPage := false |}.

(** The shape both aggregators share: [skip] tells the groups the inner
    loop passes over, and [d] is the dictionary so far. *)
Section Tally.

Variable skip : str -> bool.

Definition tally_group (d : dict nat) (g : str) : dict nat :=
  if skip g then d
  else set d (cleaned_group g) (get d (cleaned_group g) 0 + 1).

Definition tally (d : dict nat) (users : list user) : dict nat :=
  fold_left (fun d u => fold_left tally_group (user_groups u) d) users d.

(** The group strings [tally] does not pass over. *)
Definition keep (group_names : list str) : list str :=
  filter (fun g => negb (skip g)) group_names.

Definition kept (users : list user) : list str :=
  keep (flat_map user_groups users).

(** Every count is at least one. *)
Definition positive (d : dict nat) : Prop :=
  Forall (fun item => 1 <= snd item) d.

(** How the dictionary [d] after the groups [gs] relates to the dictionary
    [d0] before them. *)
Record tallied (d0 d : dict nat) (gs : list str) : Prop :=
  { tallied_get : forall p, get d p 0 = get d0 p 0 + occurrences p (keep gs);
    tallied_total : total_count d = total_count d0 + List.length (keep gs);
    tallied_nodup : NoDup (keys d0) -> NoDup (keys d);
    tallied_positive : positive d0 -> positive d;
    tallied_present : forall p,
        lookup d p = None -> lookup d0 p = None /\ occurrences p (keep gs) = 0 }.

End Tally.

(** The unit of a product before pluralization. *)
Definition singular (license_name : str) : str :=
  if eqb license_name (lit "Adobe Stock Credits")
  then lit "Credits" else lit "License".

(** What a report line says of the dictionary entry it was made from: the
    text, the unit by the used count, the total by the allocation table. *)
Definition line_of_entry (mapping : dict nat) (item : str * nat) (line : str)
    : Prop :=
  exists total unit,
    line = fst item ++ lit ": " ++ of_nat (snd item) ++ lit " of "
             ++ total ++ lit " " ++ unit
    /\ (snd item = 1 -> unit = singular (fst item))
    /\ (1 < snd item -> unit = singular (fst item) ++ lit "s")
    /\ (~ In (fst item) (keys mapping) -> total = lit "Unknown")
    /\ (forall n, In (fst item, n) mapping -> total = of_nat n).

(** A report line whose used count is the number of counted group strings
    of its product, and is not zero. *)
Definition line_of_count (group_names : list str) (item : str * nat)
    (line : str) : Prop :=
  (exists rest,
      line = fst item ++ lit ": " ++ of_nat (snd item) ++ lit " of " ++ rest)
  /\ 1 <= snd item
  /\ snd item = occurrences (fst item) group_names
  /\ of_nat (snd item) <> lit "0".

(** Three users of an organisation, for the examples. *)
Definition alice : user :=
  {| groups := Some [ lit "Default Photoshop - 100 GB configuration";
                      lit "Adobe Stock Credits" ] |}.

Definition bob : user :=
  {| groups := Some [ lit "Default Illustrator - 100 GB configuration";
                      lit "Adobe Stock Credits"; lit "Acrobat Users" ] |}.

Definition carol : user := {| groups := None |}.

(** The page a call brought. *)
Definition pages_of_result (res : call_result) : list page :=
  match res with
  | Json p => [p]
  | PyNone | Uncaught => []
  end.

(** The events of one [make_call] for [url]: requests of [url] and sleeps,
    with one to four requests. *)
Definition attempts_for (url : str) (seg : trace) : Prop :=
  Forall (fun e => e = Request url \/ exists secs, e = Sleep secs) seg
  /\ 1 <= requests_made seg <= 4.

(** A server that gives every request the same answer. *)
Definition always (o : outcome) : world :=
  {| http := fun _ _ => o;
     randint_0_5 := fun _ => J0;
     ADOBE_ORG_ID := Some (lit "ORG") |}.


(** Two pages of users, and two servers, for the examples: the first
    server answers 429 once before it gives the second page, the second
    answers 500 in place of the second page. *)
Definition first_page : page := {| users := [alice]; lastPage := false |}.

Definition second_page : page := {| users := [bob; carol]; lastPage := true |}.

Definition retry_server : world :=
  scripted [ answer 200 NoRetryAfter first_page;
             answer 429 NoRetryAfter no_page;
             answer 200 NoRetryAfter second_page ].

Definition failing_server : world :=
  scripted [ answer 200 NoRetryAfter first_page;
             answer 500 NoRetryAfter no_page ].

(** A result of a call that ends the pagination loop: a page that reports
    [lastPage], [None], or an exception. *)
Definition stops (r : call_result) : bool :=
  match r with
  | Json p => lastPage p
  | PyNone | Uncaught => true
  end.

(** What the loop gives when it ends with the result [r] of a call, after
    the pages [pages] and with the users [acc] before them. *)
Definition result_from (acc : list user) (pages : list page)
    (r : call_result) : fetched :=
  match r with
  | Json p => Returned (acc ++ flat_map users (pages ++ [p]))
  | PyNone => Returned (acc ++ flat_map users pages)
  | Uncaught => Propagated
  end.

Definition result_of (pages : list page) (r : call_result) : fetched :=
  result_from [] pages r.

(** The shapes of the trace of a call and of a run, for a set [bad] of
    outcomes. *)
Section TraceShapes.

Variable w : world.
Variable bad : outcome -> bool.

(** What a call adds to the trace: either no bad request and the page of
    its result, or a bad request at the very end, no page and [None]. *)
Definition call_trace (url : str) (t : trace) (res : call_result)
    (ext : trace) : Prop :=
  (quiet w bad t ext = true /\ pages_in w t ext = pages_of_result res)
  \/ (res = PyNone
      /\ exists ext0,
          ext = ext0 ++ [Request url]
          /\ quiet w bad t ext0 = true
          /\ pages_in w t ext0 = []
          /\ bad (http w (t ++ ext0) url) = true).

(** The same for a whole run that started with the users [acc]. *)
Definition run_trace (acc : list user) (t : trace) (res : fetched)
    (ext : trace) : Prop :=
  (quiet w bad t ext = true
   /\ forall us, res = Returned us ->
                 us = acc ++ flat_map users (pages_in w t ext))
  \/ (exists ext0 url,
        ext = ext0 ++ [Request url]
        /\ quiet w bad t ext0 = true
        /\ bad (http w (t ++ ext0) url) = true
        /\ res = Returned (acc ++ flat_map users (pages_in w t ext0))).

End TraceShapes.

(** The distinct elements of a list of names, each at the place of its
    first occurrence. *)
Fixpoint distinct (names : list str) : list str :=
  match names with
  | [] => []
  | x :: rest => x :: filter (fun y => negb (eqb x y)) (distinct rest)
  end.

(** A string with no white space at either end. *)
Definition stripped (s : str) : Prop :=
  match s with
  | [] => True
  | c :: _ => isspace c = false /\ isspace (last s c) = false
  end.

(** A user as the refresh script sees it: without the excluded groups. *)
Definition without_excluded (u : user) : user :=
  {| groups := Some (filter (fun g => negb (Refresh.is_excluded g))
                       (user_groups u)) |}.

(** The events of one call that waits between requests: a request of
    [url], then any number of times a sleep that is not negative and a
    request of [url]. *)
Fixpoint alternates (url : str) (seg : trace) : bool :=
  match seg with
  | Request u :: rest =>
      eqb u url
      && match rest with
         | [] => true
         | Sleep secs :: rest' => (0 <=? secs)%Z && alternates url rest'
         | Request _ :: _ => false
         end
  | _ => false
  end.

(** A range of attempts of which all but the last are below 4: the ones
    after which [make_call] sleeps. *)
Fixpoint backoff_range (range : list Z) : bool :=
  match range with
  | [] => true
  | [attempt] => negb (attempt <? 4)%Z
  | attempt :: rest => (attempt <? 4)%Z && backoff_range rest
  end.

(** A response whose status is not 200, retryable or not. *)
Definition not_ok (o : outcome) : bool :=
  match o with
  | Raises => false
  | Responds r => negb (status_code r =? 200)%Z
  end.

(** A request that raised. *)
Definition raised (o : outcome) : bool :=
  match o with
  | Raises => true
  | Responds _ => false
  end.

(** A server that gives the first page and then drops the connection, and
    sites around the example servers: Slack answers 200, or raises. *)
Definition dropping_server : world :=
  scripted [ answer 200 NoRetryAfter first_page ].

Definition site_of (w : world) (token : token_outcome) : site :=
  {| adobe := w;
     slack := fun _ => SlackResponds 200;
     token_endpoint := token |}.

(** Users who hold no group that counts in the refresh script. *)
Definition dave : user := {| groups := Some [lit "Acrobat Users"] |}.

Definition quiet_page : page := {| users := [dave; carol]; lastPage := true |}.

(** What a run hands to Slack, from the users the fetch returned: nothing
    for no user, one alert otherwise. *)
Definition alerts (summarize : list user -> str) (us : list user)
    : list str :=
  match us with
  | [] => []
  | _ :: _ => [alert_text (summarize us)]
  end.

(** The same from what the fetch gave: an exception that leaves the fetch
    ends the script before anything is posted. *)
Definition posts_of (summarize : list user -> str) (res : fetched)
    : list str :=
  match res with
  | Returned us => alerts summarize us
  | Propagated => []
  end.

(** * Properties *)

(** ** Strings *)

Lemma eqb_eq (a b : str) : eqb a b = true <-> a = b.
Proof.
  revert b; induction a as [|x a IH]; intros [|y b]; simpl;
    try (split; [discriminate | congruence]); try tauto.
  rewrite andb_true_iff, N.eqb_eq, IH.
  split; [intros [-> ->]; reflexivity | intros H; inversion H; auto].
Qed.

Lemma eqb_refl (a : str) : eqb a a = true.
Proof. apply eqb_eq; reflexivity. Qed.

Lemma eqb_neq (a b : str) : eqb a b = false <-> a <> b.
Proof.
  rewrite <- eqb_eq. destruct (eqb a b); split; congruence.
Qed.

Lemma eqb_sym (a b : str) : eqb a b = eqb b a.
Proof.
  destruct (eqb a b) eqn:E.
  - apply eqb_eq in E; subst; symmetry; apply eqb_refl.
  - symmetry; apply eqb_neq; apply eqb_neq in E; congruence.
Qed.

Lemma replace_from_absent (old new s : str) :
  contains old s = false -> replace_from old new 0 s = s.
Proof.
  induction s as [|c s IH]; simpl; intros H; [reflexivity|].
  apply orb_false_iff in H; destruct H as [H1 H2].
  rewrite H1, IH by assumption; reflexivity.
Qed.

(** Replacing a substring that does not occur changes nothing. *)
Lemma replace_absent (old new s : str) :
  contains old s = false -> replace old new s = s.
Proof.
  destruct old as [|x old]; intros H.
  - destruct s; discriminate H.
  - apply replace_from_absent; assumption.
Qed.

Lemma lstrip_snoc (s : str) (c : char) :
  isspace c = false -> lstrip (s ++ [c]) = lstrip s ++ [c].
Proof.
  intros Hc; induction s as [|a s IH]; simpl.
  - rewrite Hc; reflexivity.
  - destruct (isspace a); [exact IH | reflexivity].
Qed.

Lemma lstrip_idem (s : str) : lstrip (lstrip s) = lstrip s.
Proof.
  induction s as [|a s IH]; simpl; [reflexivity|].
  destruct (isspace a) eqn:E; [exact IH | simpl; rewrite E; reflexivity].
Qed.

Lemma rstrip_cons (c : char) (s : str) :
  isspace c = false -> rstrip (c :: s) = c :: rstrip s.
Proof.
  intros Hc; unfold rstrip; simpl.
  rewrite lstrip_snoc by assumption.
  rewrite rev_app_distr; reflexivity.
Qed.

Lemma rstrip_idem (s : str) : rstrip (rstrip s) = rstrip s.
Proof.
  unfold rstrip; rewrite rev_involutive, lstrip_idem; reflexivity.
Qed.

(** [strip] leaves a stripped string as it is. *)
Lemma strip_idem (s : str) : strip (strip s) = strip s.
Proof.
  unfold strip.
  assert (H : lstrip (rstrip (lstrip s)) = rstrip (lstrip s)).
  { induction s as [|a s IH]; simpl; [reflexivity|].
    destruct (isspace a) eqn:E; [exact IH|].
    rewrite rstrip_cons by assumption; simpl; rewrite E; reflexivity. }
  rewrite H; apply rstrip_idem.
Qed.

(** ** C3: the cleanup applied twice *)

(** C3, as the spec states it, fails: removing [Default ] from
    [DDefault efault Acrobat] uncovers a new [Default ], which only a second
    application removes. *)
Lemma cleanup_not_idempotent :
  ~ (forall s : str, cleaned_group (cleaned_group s) = cleaned_group s).
Proof.
  intros H.
  specialize (H (lit "DDefault efault Acrobat")).
  vm_compute in H; discriminate H.
Qed.

(** C3, amended: the cleanup is idempotent on every group name whose
    cleaned form contains none of the eight substrings the chain removes;
    a second application then returns the cleaned form unchanged. *)
Theorem cleanup_idempotent_when_clean (s : str) :
  mentions_removed (cleaned_group s) = false ->
  cleaned_group (cleaned_group s) = cleaned_group s.
Proof.
  intros H.
  unfold mentions_removed, REMOVED in H; simpl in H.
  repeat (apply orb_false_iff in H; destruct H as [?H H]).
  set (c := cleaned_group s) in *.
  unfold cleaned_group at 1.
  rewrite (replace_absent _ [] _ H0), (replace_absent _ [] _ H1),
    (replace_absent _ [] _ H2), (replace_absent _ [] _ H3),
    (replace_absent _ [] _ H4), (replace_absent _ [] _ H5),
    (replace_absent _ [] _ H6), (replace_absent _ [] _ H7).
  unfold c, cleaned_group; apply strip_idem.
Qed.

(** The theorem at a group name of the organisation: its cleaned form is
    [Acrobat Pro], which mentions no removed substring. *)
Lemma cleanup_idempotent_when_clean_witness :
  cleaned_group (cleaned_group (lit "Default Acrobat Pro DC configuration"))
  = cleaned_group (lit "Default Acrobat Pro DC configuration").
Proof.
  apply (cleanup_idempotent_when_clean
           (lit "Default Acrobat Pro DC configuration")).
  vm_compute; reflexivity.
Defined.

(** ** Dictionaries *)

Section DictFacts.

Variable V : Type.
Implicit Types (d : dict V) (k : str) (v : V).

Lemma lookup_set d k v k' :
  lookup (set d k v) k' = if eqb k k' then Some v else lookup d k'.
Proof.
  induction d as [|[k1 v1] d IH]; simpl.
  - reflexivity.
  - destruct (eqb k1 k) eqn:E1; simpl.
    + apply eqb_eq in E1; subst k1. destruct (eqb k k'); reflexivity.
    + rewrite IH. destruct (eqb k1 k') eqn:E2; [|reflexivity].
      apply eqb_eq in E2; subst k1.
      rewrite eqb_sym, E1; reflexivity.
Qed.

Lemma lookup_None d k : lookup d k = None <-> ~ In k (keys d).
Proof.
  induction d as [|[k1 v1] d IH]; simpl; [tauto|].
  destruct (eqb k1 k) eqn:E.
  - apply eqb_eq in E; split; [discriminate | intros H; elim H; auto].
  - apply eqb_neq in E; rewrite IH; tauto.
Qed.

Lemma keys_set d k v :
  keys (set d k v) =
  match lookup d k with Some _ => keys d | None => keys d ++ [k] end.
Proof.
  induction d as [|[k1 v1] d IH]; simpl; [reflexivity|].
  destruct (eqb k1 k) eqn:E; simpl; [reflexivity|].
  rewrite IH; destruct (lookup d k); reflexivity.
Qed.

Lemma NoDup_keys_set d k v : NoDup (keys d) -> NoDup (keys (set d k v)).
Proof.
  intros H; rewrite keys_set.
  destruct (lookup d k) eqn:E; [assumption|].
  apply lookup_None in E.
  apply Permutation_NoDup with (l := k :: keys d).
  - apply Permutation_cons_append.
  - constructor; assumption.
Qed.

(** With one entry per key, the entries are what [lookup] finds. *)
Lemma In_lookup d k v :
  NoDup (keys d) -> (In (k, v) d <-> lookup d k = Some v).
Proof.
  induction d as [|[k1 v1] d IH]; simpl; intros H.
  - split; [tauto | discriminate].
  - inversion H as [|? ? Hnotin Hnodup]; subst.
    destruct (eqb k1 k) eqn:E.
    + apply eqb_eq in E; subst k1. split.
      * intros [Heq | Hin]; [congruence|].
        elim Hnotin. change k with (fst (k, v)). apply in_map; assumption.
      * intros Heq; left; congruence.
    + apply eqb_neq in E. rewrite <- IH by assumption. split.
      * intros [Heq | Hin]; [congruence | assumption].
      * auto.
Qed.

Lemma NoDup_keys_entries d : NoDup (keys d) -> NoDup d.
Proof.
  apply NoDup_map_inv.
Qed.

(** Two dictionaries with the same entries hold them in some order. *)
Lemma same_lookup_Permutation d d' :
  NoDup (keys d) -> NoDup (keys d') ->
  (forall k, lookup d k = lookup d' k) -> Permutation d d'.
Proof.
  intros H H' Heq.
  apply NoDup_Permutation; try (apply NoDup_keys_entries; assumption).
  intros [k v]. rewrite !In_lookup by assumption. rewrite Heq; tauto.
Qed.

End DictFacts.

(** ** The aggregator *)

Lemma filter_Permutation (A : Type) (f : A -> bool) (l l' : list A) :
  Permutation l l' -> Permutation (filter f l) (filter f l').
Proof.
  induction 1 as [|x l l' _ IH|x y l|l l' l'' _ IH1 _ IH2]; simpl.
  - constructor.
  - destruct (f x); [constructor|]; assumption.
  - destruct (f x), (f y); try reflexivity. apply perm_swap.
  - eapply perm_trans; eassumption.
Qed.

Lemma occurrences_app (product : str) (l l' : list str) :
  occurrences product (l ++ l') = occurrences product l + occurrences product l'.
Proof.
  unfold occurrences; rewrite filter_app, length_app; reflexivity.
Qed.

Section TallyFacts.

Variable skip : str -> bool.

Lemma positive_set (d : dict nat) (k : str) (n : nat) :
  positive d -> 1 <= n -> positive (set d k n).
Proof.
  unfold positive; induction d as [|[k1 v1] d IH]; simpl; intros H Hn.
  - constructor; [assumption | constructor].
  - inversion H; subst. destruct (eqb k1 k); constructor; auto.
Qed.

Lemma total_count_incr (d : dict nat) (k : str) :
  total_count (set d k (get d k 0 + 1)) = S (total_count d).
Proof.
  unfold get; induction d as [|[k1 v1] d IH]; simpl.
  - reflexivity.
  - destruct (eqb k1 k); simpl; [lia | rewrite IH; lia].
Qed.

(** One step of the inner loop, seen from a product name. *)
Lemma lookup_tally_group (d : dict nat) (g p : str) :
  lookup (tally_group skip d g) p =
  if negb (skip g) && eqb (cleaned_group g) p
  then Some (get d p 0 + 1) else lookup d p.
Proof.
  unfold tally_group. destruct (skip g); simpl; [reflexivity|].
  rewrite lookup_set. destruct (eqb (cleaned_group g) p) eqn:E; [|reflexivity].
  apply eqb_eq in E; subst p; reflexivity.
Qed.

Lemma tallied_groups (gs : list str) (d0 : dict nat) :
  tallied skip d0 (fold_left (tally_group skip) gs d0) gs.
Proof.
  revert d0; induction gs as [|g gs IH]; intros d0; simpl.
  - constructor; intros; unfold occurrences, keep; simpl; auto; lia.
  - destruct (IH (tally_group skip d0 g)) as [Hget Htot Hnd Hpos Hpres].
    assert (Hstep : forall p,
      get (tally_group skip d0 g) p 0 =
      get d0 p 0 + (if negb (skip g) && eqb (cleaned_group g) p then 1 else 0)).
    { intros p; unfold get at 1; rewrite lookup_tally_group.
      destruct (negb (skip g) && eqb (cleaned_group g) p); [reflexivity|].
      fold (get d0 p 0); lia. }
    constructor.
    + intros p; rewrite Hget, Hstep. unfold occurrences, keep; simpl.
      destruct (skip g); simpl; [lia|].
      destruct (eqb (cleaned_group g) p); simpl; lia.
    + rewrite Htot. unfold keep, tally_group; simpl.
      destruct (skip g); simpl; [lia|]. rewrite total_count_incr; lia.
    + intros H; apply Hnd. unfold tally_group.
      destruct (skip g); [assumption | apply NoDup_keys_set; assumption].
    + intros H; apply Hpos. unfold tally_group.
      destruct (skip g); [assumption | apply positive_set; [assumption | lia]].
    + intros p Hp. destruct (Hpres p Hp) as [H1 H2].
      rewrite lookup_tally_group in H1. unfold occurrences, keep; simpl.
      destruct (skip g); simpl in *; [split; assumption|].
      destruct (eqb (cleaned_group g) p); simpl in *; [discriminate|].
      split; assumption.
Qed.

Lemma keep_app (l l' : list str) :
  keep skip (l ++ l') = keep skip l ++ keep skip l'.
Proof. apply filter_app. Qed.

Lemma tallied_users (users : list user) (d0 : dict nat) :
  tallied skip d0 (tally skip d0 users) (flat_map user_groups users).
Proof.
  revert d0; induction users as [|u users IH]; intros d0; simpl.
  - constructor; intros; unfold occurrences, keep; simpl; auto; lia.
  - destruct (tallied_groups (user_groups u) d0) as [Hget1 Htot1 Hnd1 Hpos1 Hpres1].
    destruct (IH (fold_left (tally_group skip) (user_groups u) d0))
      as [Hget Htot Hnd Hpos Hpres].
    unfold tally in *; simpl.
    constructor.
    + intros p; rewrite Hget, Hget1, keep_app, occurrences_app; lia.
    + rewrite Htot, Htot1, keep_app, length_app; lia.
    + auto.
    + auto.
    + intros p Hp. destruct (Hpres p Hp) as [H1 H2].
      destruct (Hpres1 p H1) as [H3 H4].
      rewrite keep_app, occurrences_app; split; [assumption | lia].
Qed.

(** The dictionary of a run that starts empty. *)
Lemma tally_get (users : list user) (p : str) :
  get (tally skip [] users) p 0 = occurrences p (kept skip users).
Proof.
  destruct (tallied_users users []) as [Hget _ _ _ _].
  rewrite Hget; reflexivity.
Qed.

Lemma tally_total (users : list user) :
  total_count (tally skip [] users) = List.length (kept skip users).
Proof.
  destruct (tallied_users users []) as [_ Htot _ _ _].
  rewrite Htot; reflexivity.
Qed.

Lemma tally_nodup (users : list user) : NoDup (keys (tally skip [] users)).
Proof.
  destruct (tallied_users users []) as [_ _ Hnd _ _].
  apply Hnd; constructor.
Qed.

Lemma tally_positive (users : list user) : positive (tally skip [] users).
Proof.
  destruct (tallied_users users []) as [_ _ _ Hpos _].
  apply Hpos; constructor.
Qed.

(** What the dictionary holds for a product: nothing when no counted group
    cleans up to it, its number of occurrences otherwise. *)
Lemma tally_lookup (users : list user) (p : str) :
  lookup (tally skip [] users) p =
  match occurrences p (kept skip users) with
  | O => None
  | S n => Some (S n)
  end.
Proof.
  pose proof (tally_get users p) as Hget.
  pose proof (tally_positive users) as Hpos.
  destruct (tallied_users users []) as [_ _ Hnd _ Hpres].
  specialize (Hnd (NoDup_nil _)).
  unfold get in Hget.
  destruct (lookup (tally skip [] users) p) as [v|] eqn:E.
  - apply In_lookup in E; [|assumption].
    unfold positive in Hpos; rewrite Forall_forall in Hpos.
    specialize (Hpos _ E); simpl in Hpos.
    rewrite <- Hget. destruct v; [lia | reflexivity].
  - rewrite <- Hget; reflexivity.
Qed.

(** Every entry is a product with its number of occurrences, at least one. *)
Lemma tally_entries (users : list user) :
  Forall (fun item => 1 <= snd item
                      /\ snd item = occurrences (fst item) (kept skip users))
    (tally skip [] users).
Proof.
  rewrite Forall_forall; intros [k v] Hin; simpl.
  pose proof (tally_positive users) as Hpos.
  unfold positive in Hpos; rewrite Forall_forall in Hpos.
  split; [exact (Hpos _ Hin)|].
  apply In_lookup in Hin; [|apply tally_nodup].
  rewrite <- tally_get; unfold get; rewrite Hin; reflexivity.
Qed.

(** The order of the users does not change what the dictionary holds. *)
Lemma tally_Permutation (users users' : list user) :
  Permutation users users' ->
  Permutation (tally skip [] users) (tally skip [] users').
Proof.
  intros HP.
  apply same_lookup_Permutation; try apply tally_nodup.
  intros k; rewrite !tally_lookup.
  replace (occurrences k (kept skip users'))
    with (occurrences k (kept skip users)); [reflexivity|].
  unfold occurrences, kept.
  apply Permutation_length; do 2 apply filter_Permutation.
  apply Permutation_flat_map; assumption.
Qed.

End TallyFacts.

Lemma Monitor_license_counts (users : list user) :
  Monitor.license_counts users = tally (fun _ => false) [] users.
Proof. reflexivity. Qed.

Lemma Refresh_license_counts (users : list user) :
  Refresh.license_counts users = tally Refresh.is_excluded [] users.
Proof. reflexivity. Qed.

Lemma kept_all (users : list user) :
  kept (fun _ => false) users = flat_map user_groups users.
Proof.
  unfold kept. induction (flat_map user_groups users) as [|g gs IH];
    [reflexivity | simpl; f_equal; exact IH].
Qed.

Lemma kept_excluded (users : list user) :
  kept Refresh.is_excluded users = counted Refresh.EXCLUDED_GROUPS users.
Proof. reflexivity. Qed.

(** C1: for every list of users and every product name, the count the
    aggregator of refresh_adobe_license_monitor.py holds for the product is
    the number of group strings, over all users, that are not in
    [EXCLUDED_GROUPS] and clean up to that name; adobe_license_monitor.py
    has no exclusion list, and its aggregator counts every group string the
    same way. *)
Theorem aggregate_counts_match (users : list user) (product : str) :
  get (Refresh.license_counts users) product 0
  = occurrences product (counted Refresh.EXCLUDED_GROUPS users)
  /\ get (Monitor.license_counts users) product 0
     = occurrences product (flat_map user_groups users).
Proof.
  split.
  - rewrite Refresh_license_counts, tally_get; reflexivity.
  - rewrite Monitor_license_counts, tally_get, kept_all; reflexivity.
Qed.

(** C8: the counts of the dictionary add up to the number of group strings
    that are not excluded (refresh_adobe_license_monitor.py), or to the
    number of all group strings (adobe_license_monitor.py). *)
Theorem memberships_conserved (users : list user) :
  total_count (Refresh.license_counts users)
  = List.length (counted Refresh.EXCLUDED_GROUPS users)
  /\ total_count (Monitor.license_counts users)
     = List.length (flat_map user_groups users).
Proof.
  split.
  - rewrite Refresh_license_counts, tally_total; reflexivity.
  - rewrite Monitor_license_counts, tally_total, kept_all; reflexivity.
Qed.

(** ** The report *)

Lemma digits_zero (u : Decimal.uint) :
  digits u = lit "0" -> u = Decimal.D0 Decimal.Nil.
Proof.
  destruct u as [|u|u|u|u|u|u|u|u|u|u]; simpl; intros H;
    try discriminate H.
  injection H as H. destruct u; try discriminate H; reflexivity.
Qed.

(** Only zero prints as [0]. *)
Lemma of_nat_zero (n : nat) : of_nat n = lit "0" -> n = 0.
Proof.
  unfold of_nat; intros H. apply digits_zero in H.
  rewrite <- (DecimalNat.Unsigned.of_to n), H; reflexivity.
Qed.

Lemma Forall2_map_Forall (A B : Type) (f : A -> B) (P : A -> Prop)
    (R : A -> B -> Prop) (l : list A) :
  Forall P l -> (forall a, P a -> R a (f a)) -> Forall2 R l (List.map f l).
Proof.
  intros H HR; induction H; simpl; constructor; auto.
Qed.

Section ReportFacts.

Variable license_mapping : dict nat.
Hypothesis mapping_keys : NoDup (keys license_mapping).

(** The unit of a line. *)
Lemma unit_of_cases (license_name : str) (used : nat) :
  (used <= 1 -> unit_of license_name used = singular license_name)
  /\ (1 < used -> unit_of license_name used = singular license_name ++ lit "s").
Proof.
  unfold unit_of, singular.
  destruct (eqb license_name (lit "Adobe Stock Credits")); simpl;
    split; intros H.
  all: try (apply Nat.ltb_lt in H; rewrite H; reflexivity).
  all: assert (E : (1 <? used) = false) by (apply Nat.ltb_ge; lia);
    rewrite E; reflexivity.
Qed.

(** The total of a line. *)
Lemma total_of_cases (license_name : str) :
  (~ In license_name (keys license_mapping) ->
   format_total (total_of license_mapping license_name) = lit "Unknown")
  /\ (forall n, In (license_name, n) license_mapping ->
      format_total (total_of license_mapping license_name) = of_nat n).
Proof.
  unfold total_of; split.
  - intros H; apply lookup_None in H; rewrite H; reflexivity.
  - intros n H; apply In_lookup in H; [|assumption]. rewrite H; reflexivity.
Qed.

End ReportFacts.

Lemma Monitor_mapping_keys : NoDup (keys Monitor.license_mapping).
Proof.
  vm_compute. repeat constructor; simpl; intuition discriminate.
Qed.

Lemma Refresh_mapping_keys : NoDup (keys Refresh.LICENSE_MAPPING).
Proof. exact Monitor_mapping_keys. Qed.

Lemma Forall_trivial (A : Type) (l : list A) : Forall (fun _ => True) l.
Proof. induction l; constructor; auto. Qed.

Lemma summary_lines_of_entries (mapping counts : dict nat) :
  NoDup (keys mapping) ->
  Forall2 (line_of_entry mapping) counts (summary mapping counts).
Proof.
  intros Hnd. unfold summary.
  apply Forall2_map_Forall with (P := fun _ => True); [apply Forall_trivial|].
  intros [name used] _.
  exists (format_total (total_of mapping name)), (unit_of name used); simpl.
  destruct (unit_of_cases name used) as [Hone Hmany].
  destruct (@total_of_cases mapping Hnd name) as [Habsent Hpresent].
  repeat split; auto. intros ->; apply Hone; lia.
Qed.

(** C6: the report is the lines of the dictionary entries joined by line
    feeds, one line per entry and in the order of the entries; the line of
    an entry carries the unit in the singular when the used count is 1 and
    with an [s] appended when it is greater than 1, and as total the number
    of seats the allocation table gives for the product, or [Unknown] when
    the table has no such product. *)
Theorem summary_units_and_totals (users : list user) :
  (exists lines,
      Monitor.summarize_licenses users = join [10%N] lines
      /\ Forall2 (line_of_entry Monitor.license_mapping)
           (Monitor.license_counts users) lines)
  /\ (exists lines,
      Refresh.summarize_licenses users = join [10%N] lines
      /\ Forall2 (line_of_entry Refresh.LICENSE_MAPPING)
           (Refresh.license_counts users) lines).
Proof.
  split.
  - exists (summary Monitor.license_mapping (Monitor.license_counts users)).
    split; [reflexivity|].
    apply summary_lines_of_entries, Monitor_mapping_keys.
  - exists (summary Refresh.LICENSE_MAPPING (Refresh.license_counts users)).
    split; [reflexivity|].
    apply summary_lines_of_entries, Refresh_mapping_keys.
Qed.

Lemma summary_lines_of_counts (skip : str -> bool) (mapping : dict nat)
    (users : list user) :
  Forall2 (line_of_count (kept skip users)) (tally skip [] users)
    (summary mapping (tally skip [] users)).
Proof.
  unfold summary.
  eapply Forall2_map_Forall; [apply tally_entries|].
  intros [name used]; simpl; intros [Hpos Hocc].
  unfold line_of_count; simpl.
  split; [eexists; reflexivity|].
  split; [exact Hpos|].
  split; [exact Hocc|].
  intros H; apply of_nat_zero in H; lia.
Qed.

Lemma absent_without_occurrence (skip : str -> bool) (users : list user)
    (p : str) :
  occurrences p (kept skip users) = 0 -> ~ In p (keys (tally skip [] users)).
Proof.
  intros H; apply lookup_None; rewrite tally_lookup, H; reflexivity.
Qed.

(** C9: every line of the report comes from an entry of the dictionary
    whose used count is at least 1, is the number of counted group strings
    of its product, and does not print as [0]; a product with no counted
    group string has no entry, hence no line. *)
Theorem used_counts_at_least_one (users : list user) :
  (exists lines,
      Monitor.summarize_licenses users = join [10%N] lines
      /\ Forall2 (line_of_count (flat_map user_groups users))
           (Monitor.license_counts users) lines)
  /\ (exists lines,
      Refresh.summarize_licenses users = join [10%N] lines
      /\ Forall2 (line_of_count (counted Refresh.EXCLUDED_GROUPS users))
           (Refresh.license_counts users) lines)
  /\ (forall product,
      occurrences product (flat_map user_groups users) = 0 ->
      ~ In product (keys (Monitor.license_counts users)))
  /\ (forall product,
      occurrences product (counted Refresh.EXCLUDED_GROUPS users) = 0 ->
      ~ In product (keys (Refresh.license_counts users))).
Proof.
  repeat split.
  - exists (summary Monitor.license_mapping (Monitor.license_counts users)).
    split; [reflexivity|].
    rewrite <- kept_all. apply summary_lines_of_counts.
  - exists (summary Refresh.LICENSE_MAPPING (Refresh.license_counts users)).
    split; [reflexivity|].
    apply (summary_lines_of_counts Refresh.is_excluded).
  - intros product H. rewrite <- kept_all in H.
    apply (absent_without_occurrence _ _ _ H).
  - intros product H.
    apply (absent_without_occurrence Refresh.is_excluded _ _ H).
Qed.

(** C10: for the product [Adobe Stock Credits] the unit is [Credits] when
    the used count is 1 and [Creditss] when it is greater than 1, and the
    line of either script ends with that unit after the total [Unknown]. *)
Theorem stock_credits_unit (n : nat) :
  (n = 1 -> unit_of (lit "Adobe Stock Credits") n = lit "Credits")
  /\ (1 < n -> unit_of (lit "Adobe Stock Credits") n = lit "Creditss")
  /\ summary_line Monitor.license_mapping (lit "Adobe Stock Credits", n)
     = lit "Adobe Stock Credits: " ++ of_nat n ++ lit " of Unknown "
         ++ unit_of (lit "Adobe Stock Credits") n
  /\ summary_line Refresh.LICENSE_MAPPING (lit "Adobe Stock Credits", n)
     = lit "Adobe Stock Credits: " ++ of_nat n ++ lit " of Unknown "
         ++ unit_of (lit "Adobe Stock Credits") n.
Proof.
  destruct (unit_of_cases (lit "Adobe Stock Credits") n) as [Hone Hmany].
  split; [|split; [|split]].
  - intros ->; apply Hone; lia.
  - intros H; rewrite (Hmany H); reflexivity.
  - reflexivity.
  - reflexivity.
Qed.

(** The report of the refresh script on Alice and Bob, by computation. *)
Example report_alice_bob :
  Refresh.summarize_licenses [alice; bob; carol]
  = lit "Photoshop: 1 of 14 License" ++ [10%N]
      ++ lit "Adobe Stock Credits: 2 of Unknown Creditss" ++ [10%N]
      ++ lit "Illustrator: 1 of 7 License".
Proof. vm_compute; reflexivity. Qed.

Lemma summary_units_and_totals_witness :
  exists lines,
    Refresh.summarize_licenses [alice; bob; carol] = join [10%N] lines
    /\ Forall2 (line_of_entry Refresh.LICENSE_MAPPING)
         (Refresh.license_counts [alice; bob; carol]) lines.
Proof.
  exact (proj2 (summary_units_and_totals [alice; bob; carol])).
Defined.

Lemma used_counts_at_least_one_witness :
  ~ In (lit "Acrobat Users") (keys (Refresh.license_counts [alice; bob])).
Proof.
  apply (proj2 (proj2 (proj2 (used_counts_at_least_one [alice; bob])))).
  vm_compute; reflexivity.
Defined.

Lemma stock_credits_unit_witness :
  unit_of (lit "Adobe Stock Credits") 2 = lit "Creditss".
Proof.
  apply (proj1 (proj2 (stock_credits_unit 2))); lia.
Defined.

(** ** C7: the order of the users *)

(** C7, as stated, fails: the lines of the report follow the order in which
    the products are first met, so Alice before Bob and Bob before Alice
    give two different texts. *)
Lemma summary_depends_on_order :
  ~ (forall users users', Permutation users users' ->
       Monitor.summarize_licenses users = Monitor.summarize_licenses users')
  /\ ~ (forall users users', Permutation users users' ->
         Refresh.summarize_licenses users = Refresh.summarize_licenses users').
Proof.
  split; intros H;
    specialize (H [alice; bob] [bob; alice] (perm_swap bob alice []));
    vm_compute in H; discriminate H.
Qed.

Lemma get_Permutation (skip : str -> bool) (users users' : list user)
    (p : str) :
  Permutation users users' ->
  get (tally skip [] users) p 0 = get (tally skip [] users') p 0.
Proof.
  intros HP; rewrite !tally_get. unfold occurrences, kept.
  apply Permutation_length; do 2 apply filter_Permutation.
  apply Permutation_flat_map; assumption.
Qed.

(** C7, amended: for every list of users and every permutation of it, the
    aggregator holds the same count for every product, and the report is
    made of the same lines, in an order that may differ. *)
Theorem counts_independent_of_order (users users' : list user) :
  Permutation users users' ->
  (forall product,
      get (Monitor.license_counts users) product 0
      = get (Monitor.license_counts users') product 0)
  /\ Permutation (summary Monitor.license_mapping (Monitor.license_counts users))
       (summary Monitor.license_mapping (Monitor.license_counts users'))
  /\ (forall product,
      get (Refresh.license_counts users) product 0
      = get (Refresh.license_counts users') product 0)
  /\ Permutation (summary Refresh.LICENSE_MAPPING (Refresh.license_counts users))
       (summary Refresh.LICENSE_MAPPING (Refresh.license_counts users')).
Proof.
  intros HP. split; [|split; [|split]].
  - intros product; apply (get_Permutation (fun _ => false)); assumption.
  - apply Permutation_map, (tally_Permutation (fun _ => false)); assumption.
  - intros product; apply (get_Permutation Refresh.is_excluded); assumption.
  - apply Permutation_map, (tally_Permutation Refresh.is_excluded); assumption.
Qed.

Lemma counts_independent_of_order_witness :
  Permutation
    (summary Monitor.license_mapping (Monitor.license_counts [alice; bob]))
    (summary Monitor.license_mapping (Monitor.license_counts [bob; alice])).
Proof.
  apply (proj1 (proj2 (counts_independent_of_order
                         (perm_swap bob alice [])))).
Defined.

(** ** Traces *)

Section ReplayFacts.

Variable w : world.
Variable bad : outcome -> bool.

Lemma pages_in_app (done e1 e2 : trace) :
  pages_in w done (e1 ++ e2)
  = pages_in w done e1 ++ pages_in w (done ++ e1) e2.
Proof.
  revert done; induction e1 as [|e e1 IH]; intros done; simpl.
  - rewrite app_nil_r; reflexivity.
  - destruct e as [url|secs]; rewrite IH, <- app_assoc; simpl;
      [rewrite app_assoc|]; reflexivity.
Qed.

Lemma quiet_app (done e1 e2 : trace) :
  quiet w bad done (e1 ++ e2)
  = quiet w bad done e1 && quiet w bad (done ++ e1) e2.
Proof.
  revert done; induction e1 as [|e e1 IH]; intros done; simpl.
  - rewrite app_nil_r; reflexivity.
  - destruct e as [url|secs]; rewrite IH, <- app_assoc; simpl;
      [rewrite andb_assoc|]; reflexivity.
Qed.

(** A quiet trace holds no bad request. *)
Lemma quiet_request (done e1 e2 : trace) (url : str) :
  quiet w bad done (e1 ++ Request url :: e2) = true ->
  bad (http w (done ++ e1) url) = false.
Proof.
  rewrite quiet_app; simpl; intros H.
  apply andb_true_iff in H; destruct H as [_ H].
  apply andb_true_iff in H; destruct H as [H _].
  apply negb_true_iff in H; exact H.
Qed.

End ReplayFacts.

Lemma app_last_cases (A : Type) (a b rest : list A) (x y : A) :
  a ++ x :: rest = b ++ [y] ->
  (rest = [] /\ a = b /\ x = y)
  \/ (exists rest', rest = rest' ++ [y] /\ b = a ++ x :: rest').
Proof.
  intros H. destruct rest as [|r rest0].
  - left. apply app_inj_tail in H; destruct H; auto.
  - right.
    destruct (@exists_last _ (r :: rest0)) as [rest' [z Hz]]; [discriminate|].
    rewrite Hz in *. rewrite app_comm_cons, app_assoc in H.
    apply app_inj_tail in H; destruct H as [H1 H2]; subst.
    exists rest'; auto.
Qed.

(** ** The pagination loop, for any way of fetching a page *)

Section PaginationFacts.

Variable w : world.
Variable bad : outcome -> bool.
Variable call : str -> trace -> call_result * trace.
Variable url_of : nat -> str.

Hypothesis bad_no_page : forall o, bad o = true -> page_of o = [].

Hypothesis call_spec : forall url t res t',
  call url t = (res, t') -> exists ext, t' = t ++ ext /\ call_trace w bad url t res ext.

Lemma paginate_trace (fuel : nat) :
  forall i acc t res t',
    paginate call url_of fuel i acc t = Some (res, t') ->
    exists ext, t' = t ++ ext /\ run_trace w bad acc t res ext.
Proof.
  induction fuel as [|fuel IH]; simpl; intros i acc t res t' H;
    [discriminate H|].
  destruct (call (url_of i) t) as [r t1] eqn:E.
  destruct (call_spec E) as [ext1 [-> Hc]].
  destruct r as [p| |].
  - destruct Hc as [[Hq Hp] | [Hnone _]]; [|discriminate Hnone].
    simpl in Hp. destruct (lastPage p).
    + injection H as <- <-. exists ext1; split; [reflexivity|].
      left; split; [assumption|].
      intros us Hus; injection Hus as <-.
      rewrite Hp; simpl; rewrite app_nil_r; reflexivity.
    + apply IH in H. destruct H as [ext2 [-> Hr]].
      exists (ext1 ++ ext2); split; [rewrite app_assoc; reflexivity|].
      destruct Hr as [[Hq2 Hus] | [ext0 [url [-> [Hq2 [Hbad ->]]]]]].
      * left; split; [rewrite quiet_app, Hq, Hq2; reflexivity|].
        intros us Heq. rewrite (Hus us Heq), pages_in_app, Hp; simpl.
        rewrite <- app_assoc; reflexivity.
      * right. exists (ext1 ++ ext0), url.
        split; [rewrite app_assoc; reflexivity|].
        split; [rewrite quiet_app, Hq, Hq2; reflexivity|].
        split; [rewrite app_assoc; assumption|].
        rewrite pages_in_app, Hp; simpl. rewrite <- app_assoc; reflexivity.
  - injection H as <- <-. exists ext1; split; [reflexivity|].
    destruct Hc as [[Hq Hp] | [_ [ext0 [-> [Hq [Hp Hbad]]]]]].
    + left; split; [assumption|].
      intros us Hus; injection Hus as <-.
      rewrite Hp; simpl; rewrite app_nil_r; reflexivity.
    + right. exists ext0, (url_of i). repeat split; try assumption.
      rewrite Hp; simpl; rewrite app_nil_r; reflexivity.
  - injection H as <- <-. exists ext1; split; [reflexivity|].
    destruct Hc as [[Hq Hp] | [Hnone _]]; [|discriminate Hnone].
    left; split; [assumption | intros us Hus; discriminate Hus].
Qed.

(** Whatever the server does, a run that returns gives the users of the
    pages it received, in the order of the requests. *)
Lemma paginate_returns_pages (fuel : nat) (us : list user) (t : trace) :
  paginate call url_of fuel 0 [] [] = Some (Returned us, t) ->
  us = flat_map users (pages_in w [] t).
Proof.
  intros H. apply paginate_trace in H.
  destruct H as [ext [-> [[_ Hus] | [ext0 [url [-> [_ [Hbad Heq]]]]]]]]; simpl.
  - apply Hus; reflexivity.
  - injection Heq as ->. rewrite pages_in_app; simpl in *.
    rewrite (bad_no_page Hbad); simpl. rewrite app_nil_r; reflexivity.
Qed.

(** A bad request ends the run: it is the last event, and the run returns
    the users of the pages received before it. *)
Lemma paginate_stops_at_bad (fuel : nat) (res : fetched)
    (t t0 rest : trace) (url : str) :
  paginate call url_of fuel 0 [] [] = Some (res, t) ->
  t = t0 ++ Request url :: rest ->
  bad (http w t0 url) = true ->
  rest = [] /\ res = Returned (flat_map users (pages_in w [] t0)).
Proof.
  intros H Ht Hbad. apply paginate_trace in H.
  destruct H as [ext [Hext Hr]]; simpl in Hext; subst ext.
  destruct Hr as [[Hq _] | [ext0 [url' [Heq [Hq [_ ->]]]]]].
  - rewrite Ht in Hq. apply quiet_request in Hq; simpl in Hq. congruence.
  - rewrite Ht in Heq. apply app_last_cases in Heq.
    destruct Heq as [[-> [-> _]] | [rest' [_ ->]]].
    + split; reflexivity.
    + apply quiet_request in Hq; simpl in Hq. congruence.
Qed.

(** The loop ends with the first call that brings a last page or brings
    no page, and not before. *)
Lemma paginate_ends_at (pages : list page) :
  Forall (fun p => lastPage p = false) pages ->
  forall t i acc t1 r t',
    serves call url_of t i pages t1 ->
    call (url_of (i + List.length pages)) t1 = (r, t') ->
    stops r = true ->
    (forall fuel, fuel <= List.length pages ->
       paginate call url_of fuel i acc t = None)
    /\ (forall fuel, List.length pages < fuel ->
         paginate call url_of fuel i acc t
         = Some (result_from acc pages r, t')).
Proof.
  induction 1 as [|p pages Hp _ IH]; intros t i acc t1 r t' Hs Hcall Hstop;
    inversion Hs as [|? ? ? t2 ? ? Hcall1 Hrest]; subst; simpl in *.
  - rewrite Nat.add_0_r in Hcall. split; intros fuel Hfuel.
    + replace fuel with 0 by lia. reflexivity.
    + destruct fuel as [|fuel]; [lia|]. simpl. rewrite Hcall.
      destruct r as [q| |]; simpl in *.
      * rewrite Hstop, app_nil_r; reflexivity.
      * rewrite app_nil_r; reflexivity.
      * reflexivity.
  - replace (i + S (List.length pages)) with (i + 1 + List.length pages)
      in Hcall by lia.
    destruct (IH _ _ (acc ++ users p) _ _ _ Hrest Hcall Hstop) as [Hnone Hsome].
    split; intros fuel Hfuel.
    + destruct fuel as [|fuel]; [reflexivity|].
      simpl. rewrite Hcall1, Hp. apply Hnone; lia.
    + destruct fuel as [|fuel]; [lia|].
      simpl. rewrite Hcall1, Hp, Hsome by lia.
      destruct r; simpl; rewrite <- ?app_assoc; reflexivity.
Qed.

(** Every run that ends has this shape. *)
Lemma paginate_run_shape (fuel : nat) :
  forall i acc t res t',
    paginate call url_of fuel i acc t = Some (res, t') ->
    exists pages t1 r,
      Forall (fun p => lastPage p = false) pages
      /\ serves call url_of t i pages t1
      /\ call (url_of (i + List.length pages)) t1 = (r, t')
      /\ stops r = true
      /\ res = result_from acc pages r.
Proof.
  induction fuel as [|fuel IH]; simpl; intros i acc t res t' H;
    [discriminate H|].
  destruct (call (url_of i) t) as [r t1] eqn:E.
  assert (Hend : stops r = true -> Some (result_from acc [] r, t1) = Some (res, t') ->
          exists pages t0 r0,
            Forall (fun p => lastPage p = false) pages
            /\ serves call url_of t i pages t0
            /\ call (url_of (i + List.length pages)) t0 = (r0, t')
            /\ stops r0 = true
            /\ res = result_from acc pages r0).
  { intros Hstop Heq; injection Heq as <- <-.
    exists [], t, r; simpl; rewrite Nat.add_0_r.
    repeat split; auto; constructor. }
  destruct r as [p| |].
  - destruct (lastPage p) eqn:Hp.
    + apply Hend; [exact Hp|]. simpl; rewrite app_nil_r. exact H.
    + apply IH in H.
      destruct H as [pages [t0 [r0 [Hpages [Hs [Hcall [Hstop ->]]]]]]].
      exists (p :: pages), t0, r0; simpl.
      replace (i + S (List.length pages)) with (i + 1 + List.length pages) by lia.
      split; [constructor; assumption|].
      split; [econstructor; eassumption|].
      split; [assumption|]. split; [assumption|].
      destruct r0; simpl; rewrite <- ?app_assoc; reflexivity.
  - apply Hend; [reflexivity|]. simpl; rewrite app_nil_r. exact H.
  - apply Hend; [reflexivity | exact H].
Qed.

(** The trace of such calls, one segment per page. *)
Lemma serves_segments (Q : str -> trace -> Prop) :
  (forall url t res t', call url t = (res, t') ->
     exists seg, t' = t ++ seg /\ Q url seg) ->
  forall t i ps t',
    serves call url_of t i ps t' ->
    exists segs,
      t' = t ++ List.concat segs
      /\ Forall2 (fun j seg => Q (url_of j) seg) (seq i (List.length ps)) segs.
Proof.
  intros HQ t i ps t' Hs.
  induction Hs as [t i | t i p t1 ps t2 Hcall _ IH].
  - exists []; simpl; rewrite app_nil_r; split; [reflexivity | constructor].
  - destruct (HQ _ _ _ _ Hcall) as [seg [-> Hseg]].
    destruct IH as [segs [-> Hsegs]].
    exists (seg :: segs); simpl. rewrite app_assoc; split; [reflexivity|].
    constructor; [assumption|]. rewrite Nat.add_1_r in Hsegs; assumption.
Qed.

End PaginationFacts.

Lemma call_trace_prepend (w : world) (bad : outcome -> bool) (url : str)
    (t pre ext : trace) (res : call_result) :
  quiet w bad t pre = true ->
  pages_in w t pre = [] ->
  call_trace w bad url (t ++ pre) res ext ->
  call_trace w bad url t res (pre ++ ext).
Proof.
  intros Hq Hp [[Hq' Hp'] | [Hnone [ext0 [-> [Hq' [Hp' Hbad]]]]]].
  - left; split.
    + rewrite quiet_app, Hq, Hq'; reflexivity.
    + rewrite pages_in_app, Hp, Hp'; reflexivity.
  - right; split; [assumption|]. exists (pre ++ ext0).
    split; [rewrite app_assoc; reflexivity|].
    split; [rewrite quiet_app, Hq, Hq'; reflexivity|].
    split; [rewrite pages_in_app, Hp, Hp'; reflexivity|].
    rewrite app_assoc; assumption.
Qed.

Lemma failed_no_page (o : outcome) : failed o = true -> page_of o = [].
Proof.
  destruct o as [r|]; simpl; [|reflexivity].
  destruct (status_code r =? 200)%Z; [discriminate | reflexivity].
Qed.

Lemma failed_status_no_page (o : outcome) :
  failed_status o = true -> page_of o = [].
Proof.
  destruct o as [r|]; simpl; [|reflexivity].
  destruct (status_code r =? 200)%Z; [discriminate | reflexivity].
Qed.

Lemma requests_made_app (t t' : trace) :
  requests_made (t ++ t') = requests_made t + requests_made t'.
Proof.
  unfold requests_made; rewrite filter_app, length_app; reflexivity.
Qed.

(** ** adobe_license_monitor.py: [make_call] *)

(** The attempts of a call, seen from the trace. *)
Lemma attempts_trace (w : world) (url : str) (range : list Z) :
  forall t res t',
    Monitor.attempts w url range t = (res, t') ->
    exists ext, t' = t ++ ext /\ call_trace w failed url t res ext.
Proof.
  induction range as [|attempt range IH]; simpl; intros t res t' H.
  - injection H as <- <-. exists []; rewrite app_nil_r.
    split; [reflexivity | left; split; reflexivity].
  - destruct (http w t url) as [r|] eqn:Eh.
    + destruct (status_code r =? 200)%Z eqn:E200.
      { injection H as <- <-. exists [Request url]; split; [reflexivity|].
        left; simpl; rewrite Eh; simpl; rewrite E200; split; reflexivity. }
      assert (Hpre : Monitor.retryable (status_code r) = true ->
                     quiet w failed t [Request url] = true
                     /\ pages_in w t [Request url] = []).
      { intros Er; simpl; rewrite Eh; simpl; rewrite E200, Er; split; reflexivity. }
      destruct (Monitor.retryable (status_code r)) eqn:Er.
      * destruct (Hpre eq_refl) as [Hq Hp].
        destruct (Monitor.retry_wait_of w (t ++ [Request url]) attempt r)
          as [retry_wait|].
        -- destruct (attempt <? 4)%Z.
           ++ destruct (sleep_raises retry_wait).
              ** injection H as <- <-. exists [Request url].
                 split; [reflexivity | left; split; assumption].
              ** apply IH in H. destruct H as [ext [-> Hc]].
                 exists ([Request url; Sleep retry_wait] ++ ext).
                 split; [rewrite <- !app_assoc; reflexivity|].
                 apply call_trace_prepend.
                 --- simpl; simpl in Hq; rewrite Hq; reflexivity.
                 --- simpl; simpl in Hp; exact Hp.
                 --- rewrite <- app_assoc in Hc; exact Hc.
           ++ apply IH in H. destruct H as [ext [-> Hc]].
              exists ([Request url] ++ ext).
              split; [rewrite <- !app_assoc; reflexivity|].
              apply call_trace_prepend; assumption.
        -- injection H as <- <-. exists [Request url].
           split; [reflexivity | left; split; assumption].
      * injection H as <- <-. exists [Request url]; split; [reflexivity|].
        right; split; [reflexivity|]. exists []; simpl.
        rewrite app_nil_r, Eh; simpl; rewrite E200, Er. auto.
    + injection H as <- <-. exists [Request url]; split; [reflexivity|].
      right; split; [reflexivity|]. exists []; simpl.
      rewrite app_nil_r, Eh; simpl. auto.
Qed.

(** A call issues requests of its URL only, and at most one by attempt. *)
Lemma attempts_segment (w : world) (url : str) (range : list Z) :
  forall t res t',
    Monitor.attempts w url range t = (res, t') ->
    exists seg,
      t' = t ++ seg
      /\ Forall (fun e => e = Request url \/ exists secs, e = Sleep secs) seg
      /\ requests_made seg <= List.length range
      /\ (range <> [] -> 1 <= requests_made seg).
Proof.
  induction range as [|attempt range IH]; simpl; intros t res t' H.
  - injection H as <- <-. exists []; rewrite app_nil_r.
    repeat split; auto. congruence.
  - assert (Hstop : exists seg,
      t ++ [Request url] = t ++ seg
      /\ Forall (fun e => e = Request url \/ exists secs, e = Sleep secs) seg
      /\ requests_made seg <= S (List.length range)
      /\ (attempt :: range <> [] -> 1 <= requests_made seg)).
    { exists [Request url]. split; [reflexivity|].
      split; [constructor; [left; reflexivity | constructor]|].
      unfold requests_made; simpl; split; intros; lia. }
    assert (Hgo : forall pre res t',
      Forall (fun e => e = Request url \/ exists secs, e = Sleep secs) pre ->
      requests_made pre = 1 ->
      Monitor.attempts w url range (t ++ pre) = (res, t') ->
      exists seg,
        t' = t ++ seg
        /\ Forall (fun e => e = Request url \/ exists secs, e = Sleep secs) seg
        /\ requests_made seg <= S (List.length range)
        /\ (attempt :: range <> [] -> 1 <= requests_made seg)).
    { intros pre res0 t0 Hpre Hcount Hrun.
      apply IH in Hrun. destruct Hrun as [seg [-> [Hseg [Hle _]]]].
      exists (pre ++ seg). split; [rewrite app_assoc; reflexivity|].
      split; [apply Forall_app; split; assumption|].
      rewrite requests_made_app; split; intros; lia. }
    destruct (http w t url) as [r|].
    + destruct (status_code r =? 200)%Z; [injection H as <- <-; exact Hstop|].
      destruct (Monitor.retryable (status_code r));
        [|injection H as <- <-; exact Hstop].
      destruct (Monitor.retry_wait_of w (t ++ [Request url]) attempt r)
        as [retry_wait|]; [|injection H as <- <-; exact Hstop].
      destruct (attempt <? 4)%Z.
      * destruct (sleep_raises retry_wait);
          [injection H as <- <-; exact Hstop|].
        rewrite <- app_assoc in H. apply Hgo in H; [exact H| |reflexivity].
        constructor; [left; reflexivity|].
        constructor; [right; eexists; reflexivity | constructor].
      * apply Hgo in H; [exact H| |reflexivity].
        constructor; [left; reflexivity | constructor].
    + injection H as <- <-; exact Hstop.
Qed.

Lemma make_call_segment (w : world) (url : str) (t : trace)
    (res : call_result) (t' : trace) :
  Monitor.make_call w url t = (res, t') ->
  exists seg, t' = t ++ seg /\ attempts_for url seg.
Proof.
  intros H. apply attempts_segment in H.
  destruct H as [seg [-> [Hseg [Hle Hge]]]].
  exists seg; split; [reflexivity|]. split; [assumption|].
  simpl in Hle. split; [apply Hge; discriminate | assumption].
Qed.

Lemma retryable_not_200 (code : Z) :
  Monitor.retryable code = true -> (code =? 200)%Z = false.
Proof.
  intros H. destruct (code =? 200)%Z eqn:E; [|reflexivity].
  apply Z.eqb_eq in E; subst code. discriminate H.
Qed.


Lemma sleep_accepts (secs : Z) :
  sleep_raises secs = false <-> (0 <= secs <= SLEEP_MAX)%Z.
Proof.
  unfold sleep_raises. rewrite orb_false_iff, !Z.ltb_ge. tauto.
Qed.

(** The waits of the first attempts without a header are short. *)
Lemma power_of_attempt (attempt : Z) :
  (attempt <= 4)%Z -> (0 <= 2 ^ attempt <= 16)%Z.
Proof.
  intros Ha. destruct (Z.lt_ge_cases attempt 0) as [Hneg | Hpos].
  - rewrite Z.pow_neg_r by assumption. lia.
  - split; [apply Z.pow_nonneg; lia|].
    change 16%Z with (2 ^ 4)%Z. apply Z.pow_le_mono_r; lia.
Qed.



(** X2: whatever the server answers, a call of [make_call] makes at most
    four requests. *)
Lemma make_call_at_most_four (w : world) (url : str) (t : trace)
    (res : call_result) (t' : trace) :
  Monitor.make_call w url t = (res, t') ->
  requests_made t' <= requests_made t + 4.
Proof.
  intros H. apply make_call_segment in H.
  destruct H as [seg [-> [_ [_ Hle]]]]. rewrite requests_made_app; lia.
Qed.


Lemma make_call_at_most_four_witness :
  requests_made
    [ Request (lit "u"); Sleep 2; Request (lit "u"); Sleep 4;
      Request (lit "u"); Sleep 8; Request (lit "u") ]
  <= requests_made [] + 4.
Proof.
  apply (@make_call_at_most_four (always (answer 429 NoRetryAfter no_page))
           (lit "u") [] PyNone).
  reflexivity.
Defined.

(** C4 fails on the code: a retryable answer whose [Retry-After] header is
    not an integer, such as an HTTP date, makes [int()] raise inside the
    [try], so [make_call] gives up after one request instead of four; a
    negative integer makes [sleep] raise outside the [try], so the call
    does not return at all. *)
Theorem retry_after_text_ends_retries (url : str) :
  Monitor.make_call (always (answer 429 RetryAfterOther no_page)) url []
  = (PyNone, [Request url])
  /\ Monitor.make_call (always (answer 429 (RetryAfterInt (-1)) no_page)) url []
     = (Uncaught, [Request url]).
Proof. split; reflexivity. Qed.

(** ** refresh_adobe_license_monitor.py: one request by page *)

Lemma get_page_trace (w : world) (url : str) (t : trace)
    (res : call_result) (t' : trace) :
  get_page w url t = (res, t') ->
  exists ext, t' = t ++ ext /\ call_trace w failed_status url t res ext.
Proof.
  unfold get_page; intros H. exists [Request url].
  destruct (http w t url) as [r|] eqn:Eh.
  - destruct (status_code r =? 200)%Z eqn:E200; injection H as <- <-;
      (split; [reflexivity|]).
    + left; simpl; rewrite Eh; simpl; rewrite E200; split; reflexivity.
    + destruct (Monitor.retryable (status_code r)) eqn:Er.
      * left; simpl; rewrite Eh; simpl; rewrite E200, Er; split; reflexivity.
      * right; split; [reflexivity|]. exists []; simpl.
        rewrite app_nil_r, Eh; simpl; rewrite E200, Er. auto.
  - injection H as <- <-; split; [reflexivity|].
    left; simpl; rewrite Eh; split; reflexivity.
Qed.

Lemma get_page_segment (w : world) (url : str) (t : trace)
    (res : call_result) (t' : trace) :
  get_page w url t = (res, t') ->
  exists seg, t' = t ++ seg /\ seg = [Request url].
Proof.
  unfold get_page; intros H. exists [Request url].
  destruct (http w t url) as [r|]; [destruct (status_code r =? 200)%Z|];
    injection H as <- <-; split; reflexivity.
Qed.

Lemma concat_single_requests (url_of : nat -> str) (l : list nat)
    (segs : list trace) :
  Forall2 (fun j seg => seg = [Request (url_of j)]) l segs ->
  List.concat segs = List.map (fun j => Request (url_of j)) l.
Proof.
  induction 1 as [|j seg l segs Hseg _ IH]; simpl; [reflexivity|].
  rewrite Hseg, IH; reflexivity.
Qed.

(** ** Both loops are the common loop *)

Lemma Monitor_loop_paginate (w : world) (fuel : nat) :
  forall i acc t,
    Monitor.get_users_loop w fuel i acc t
    = paginate (Monitor.make_call w) (users_url w) fuel i acc t.
Proof.
  induction fuel as [|fuel IH]; intros i acc t; simpl; [reflexivity|].
  destruct (Monitor.make_call w (users_url w i) t) as [[r| |] t'];
    try reflexivity.
  destruct (lastPage r); [reflexivity | apply IH].
Qed.

Lemma Refresh_loop_paginate (w : world) (fuel : nat) :
  forall i acc t,
    Refresh.get_users_loop w fuel i acc t
    = paginate (get_page w) (users_url w) fuel i acc t.
Proof.
  induction fuel as [|fuel IH]; intros i acc t; simpl; [reflexivity|].
  unfold get_page. destruct (http w t (users_url w i)) as [r|];
    [|reflexivity].
  destruct (status_code r =? 200)%Z; [|reflexivity].
  destruct (lastPage (json r)); [reflexivity | apply IH].
Qed.

(** ** C2: where the pagination loop ends *)

(** The trace of a run, one segment per call. *)
Lemma run_segments (call : str -> trace -> call_result * trace)
    (url_of : nat -> str) (Q : str -> trace -> Prop) :
  (forall url t res t', call url t = (res, t') ->
     exists seg, t' = t ++ seg /\ Q url seg) ->
  forall pages t1 r t,
    serves call url_of [] 0 pages t1 ->
    call (url_of (List.length pages)) t1 = (r, t) ->
    exists segs,
      t = List.concat segs
      /\ Forall2 (fun j seg => Q (url_of j) seg)
           (seq 0 (List.length pages + 1)) segs.
Proof.
  intros HQ pages t1 r t Hs Hcall.
  destruct (serves_segments Q HQ Hs) as [segs [-> Hsegs]].
  destruct (HQ _ _ _ _ Hcall) as [seg [-> Hseg]]. simpl.
  exists (segs ++ [seg]). rewrite concat_app; simpl; rewrite app_nil_r.
  split; [reflexivity|].
  rewrite seq_app; simpl. apply Forall2_app; [assumption|].
  constructor; [assumption | constructor].
Qed.

(** C2, as stated, fails: the loop also ends when a page cannot be fetched.
    On a server that answers 500 the run ends after one request, and no
    response has reported [lastPage]. *)
Lemma loop_ends_without_last_page :
  ~ (forall w fuel res t,
        Monitor.get_users_in_org w fuel = Some (res, t) ->
        exists p, In p (pages_in w [] t) /\ lastPage p = true)
  /\ ~ (forall w fuel res t,
          Refresh.get_users_in_org w fuel = Some (res, t) ->
          exists p, In p (pages_in w [] t) /\ lastPage p = true).
Proof.
  split; intros H;
    destruct (H (always (answer 500 NoRetryAfter no_page)) 1 (Returned [])
                [Request (users_url (always (answer 500 NoRetryAfter no_page)) 0)]
                eq_refl) as [p [Hin _]];
    exact Hin.
Qed.

(** C2, amended: the loop of either script ends exactly with the first
    call that brings a page reporting [lastPage] or that brings no page
    ([None] or an exception): it is still running after fewer iterations,
    every run that ends has this shape, and it then returns the
    concatenation of the [users] of the pages fetched, in page order, after
    requests for the page indices 0, 1, ... in this order (each one to four
    times where [make_call] retries).  Whatever the server answers, a run
    that returns gives the users of the pages it received, in the order of
    the requests. *)
Theorem pagination_ends_at_last_page_or_failure (w : world) :
  (forall pages t1 r t,
      Forall (fun p => lastPage p = false) pages ->
      serves (Monitor.make_call w) (users_url w) [] 0 pages t1 ->
      Monitor.make_call w (users_url w (List.length pages)) t1 = (r, t) ->
      stops r = true ->
      (forall fuel, fuel <= List.length pages ->
         Monitor.get_users_in_org w fuel = None)
      /\ (forall fuel, List.length pages < fuel ->
           Monitor.get_users_in_org w fuel = Some (result_of pages r, t))
      /\ (exists segs,
            t = List.concat segs
            /\ Forall2 (fun i seg => attempts_for (users_url w i) seg)
                 (seq 0 (List.length pages + 1)) segs))
  /\ (forall fuel res t,
      Monitor.get_users_in_org w fuel = Some (res, t) ->
      exists pages t1 r,
        Forall (fun p => lastPage p = false) pages
        /\ serves (Monitor.make_call w) (users_url w) [] 0 pages t1
        /\ Monitor.make_call w (users_url w (List.length pages)) t1 = (r, t)
        /\ stops r = true
        /\ res = result_of pages r)
  /\ (forall pages t1 r t,
      Forall (fun p => lastPage p = false) pages ->
      serves (get_page w) (users_url w) [] 0 pages t1 ->
      get_page w (users_url w (List.length pages)) t1 = (r, t) ->
      stops r = true ->
      (forall fuel, fuel <= List.length pages ->
         Refresh.get_users_in_org w fuel = None)
      /\ (forall fuel, List.length pages < fuel ->
           Refresh.get_users_in_org w fuel = Some (result_of pages r, t))
      /\ t = List.map (fun i => Request (users_url w i))
               (seq 0 (List.length pages + 1)))
  /\ (forall fuel res t,
      Refresh.get_users_in_org w fuel = Some (res, t) ->
      exists pages t1 r,
        Forall (fun p => lastPage p = false) pages
        /\ serves (get_page w) (users_url w) [] 0 pages t1
        /\ get_page w (users_url w (List.length pages)) t1 = (r, t)
        /\ stops r = true
        /\ res = result_of pages r)
  /\ (forall fuel us t,
      Monitor.get_users_in_org w fuel = Some (Returned us, t) ->
      us = flat_map users (pages_in w [] t))
  /\ (forall fuel us t,
      Refresh.get_users_in_org w fuel = Some (Returned us, t) ->
      us = flat_map users (pages_in w [] t)).
Proof.
  split; [|split; [|split; [|split; [|split]]]].
  - intros pages t1 r t Hpages Hs Hcall Hstop.
    destruct (paginate_ends_at Hpages [] Hs Hcall Hstop) as [Hnone Hsome].
    split; [|split].
    + intros fuel Hfuel. unfold Monitor.get_users_in_org.
      rewrite Monitor_loop_paginate. apply Hnone; assumption.
    + intros fuel Hfuel. unfold Monitor.get_users_in_org.
      rewrite Monitor_loop_paginate. apply Hsome; assumption.
    + apply (run_segments attempts_for (@make_call_segment w) Hs Hcall).
  - intros fuel res t H. unfold Monitor.get_users_in_org in H.
    rewrite Monitor_loop_paginate in H.
    apply paginate_run_shape in H. exact H.
  - intros pages t1 r t Hpages Hs Hcall Hstop.
    destruct (paginate_ends_at Hpages [] Hs Hcall Hstop) as [Hnone Hsome].
    split; [|split].
    + intros fuel Hfuel. unfold Refresh.get_users_in_org.
      rewrite Refresh_loop_paginate. apply Hnone; assumption.
    + intros fuel Hfuel. unfold Refresh.get_users_in_org.
      rewrite Refresh_loop_paginate. apply Hsome; assumption.
    + destruct (run_segments (fun url seg => seg = [Request url])
                  (@get_page_segment w) Hs Hcall) as [segs [-> Hsegs]].
      apply concat_single_requests; assumption.
  - intros fuel res t H. unfold Refresh.get_users_in_org in H.
    rewrite Refresh_loop_paginate in H.
    apply paginate_run_shape in H. exact H.
  - intros fuel us t H. unfold Monitor.get_users_in_org in H.
    rewrite Monitor_loop_paginate in H.
    apply (paginate_returns_pages (Monitor.make_call w) (users_url w)
             failed_no_page
             (fun url t0 res t1 => @attempts_trace w url [1; 2; 3; 4]%Z t0 res t1)
             fuel H).
  - intros fuel us t H. unfold Refresh.get_users_in_org in H.
    rewrite Refresh_loop_paginate in H.
    apply (paginate_returns_pages (get_page w) (users_url w)
             failed_status_no_page (@get_page_trace w) fuel H).
Qed.

(** The theorem on a server that answers 429 once: two iterations fetch
    both pages, with one retry and its sleep of two seconds. *)
Lemma pagination_ends_at_last_page_or_failure_witness :
  Monitor.get_users_in_org retry_server 2
  = Some (Returned [alice; bob; carol],
          [ Request (users_url retry_server 0);
            Request (users_url retry_server 1); Sleep 2;
            Request (users_url retry_server 1) ]).
Proof.
  refine (proj1 (proj2 (proj1 (pagination_ends_at_last_page_or_failure
                                 retry_server)
                          [first_page] [Request (users_url retry_server 0)]
                          (Json second_page) _ _ _ _ _)) 2 _).
  - constructor; [reflexivity | constructor].
  - eapply serves_cons; [vm_compute; reflexivity | apply serves_nil].
  - vm_compute; reflexivity.
  - reflexivity.
  - simpl; lia.
Defined.

(** ** C5: a request that fails *)

(** C5, as stated, fails: when the second page is answered with 500, the
    users of the first page are returned all the same. *)
Lemma failed_fetch_keeps_users :
  ~ (forall w fuel res t t0 url rest,
        Monitor.get_users_in_org w fuel = Some (res, t) ->
        t = t0 ++ Request url :: rest ->
        failed (http w t0 url) = true ->
        res = Returned [])
  /\ ~ (forall w fuel res t t0 url rest,
          Refresh.get_users_in_org w fuel = Some (res, t) ->
          t = t0 ++ Request url :: rest ->
          failed (http w t0 url) = true ->
          res = Returned []).
Proof.
  split; intros H.
  - specialize (H failing_server 2 (Returned [alice])
                  [ Request (users_url failing_server 0);
                    Request (users_url failing_server 1) ]
                  [ Request (users_url failing_server 0) ]
                  (users_url failing_server 1) []).
    assert (E : Returned [alice] = Returned []);
      [apply H; vm_compute; reflexivity | discriminate E].
  - specialize (H failing_server 2 (Returned [alice])
                  [ Request (users_url failing_server 0);
                    Request (users_url failing_server 1) ]
                  [ Request (users_url failing_server 0) ]
                  (users_url failing_server 1) []).
    assert (E : Returned [alice] = Returned []);
      [apply H; vm_compute; reflexivity | discriminate E].
Qed.

(** The call of [make_call] whose last request fails gives [None]. *)
Lemma make_call_failed (w : world) (url url' : str) (t1 t0 : trace)
    (r : call_result) :
  Monitor.make_call w url t1 = (r, t0 ++ [Request url']) ->
  failed (http w t0 url') = true ->
  r = PyNone.
Proof.
  intros Hcall Hbad.
  destruct (@make_call_segment w _ _ _ _ Hcall) as [seg [Hseg [_ [Hone _]]]].
  destruct (@attempts_trace w url [1; 2; 3; 4]%Z t1 r _ Hcall)
    as [ext [Hext [[Hq _] | [Hnone _]]]]; [|exact Hnone].
  assert (ext = seg) by (apply (app_inv_head t1); congruence). subst ext.
  destruct (@exists_last _ seg) as [seg' [e He]].
  { intros ->. unfold requests_made in Hone; simpl in Hone. lia. }
  subst seg. rewrite app_assoc in Hseg.
  apply app_inj_tail in Hseg. destruct Hseg as [-> <-].
  apply quiet_request in Hq. congruence.
Qed.

(** A first request that fails is the only request of its call. *)
Lemma make_call_fails_at_once (w : world) (url : str) (t : trace) :
  failed (http w t url) = true ->
  Monitor.make_call w url t = (PyNone, t ++ [Request url]).
Proof.
  unfold Monitor.make_call; simpl. destruct (http w t url) as [r|]; simpl;
    [|reflexivity].
  destruct (status_code r =? 200)%Z; [discriminate|].
  destruct (Monitor.retryable (status_code r)); [discriminate | reflexivity].
Qed.

Lemma get_page_not_ok (w : world) (url : str) (t : trace) :
  not_ok (http w t url) = true ->
  get_page w url t = (PyNone, t ++ [Request url]).
Proof.
  unfold get_page. destruct (http w t url) as [r|]; simpl; [|discriminate].
  destruct (status_code r =? 200)%Z; [discriminate | reflexivity].
Qed.

Lemma failed_status_not_ok (o : outcome) :
  failed_status o = true -> not_ok o = true.
Proof.
  destruct o as [r|]; simpl; [|discriminate].
  destruct (status_code r =? 200)%Z; [discriminate | reflexivity].
Qed.

Lemma get_page_raises (w : world) (url : str) (t : trace) :
  http w t url = Raises ->
  get_page w url t = (Uncaught, t ++ [Request url]).
Proof.
  unfold get_page. intros ->. reflexivity.
Qed.

(** Where the fetch of the refresh script ends, by the call that ends it. *)
Lemma Refresh_ends_at (w : world) (pages : list page) (t1 : trace)
    (r : call_result) :
  Forall (fun p => lastPage p = false) pages ->
  serves (get_page w) (users_url w) [] 0 pages t1 ->
  get_page w (users_url w (List.length pages)) t1
  = (r, t1 ++ [Request (users_url w (List.length pages))]) ->
  stops r = true ->
  (forall fuel, fuel <= List.length pages ->
     Refresh.get_users_in_org w fuel = None)
  /\ (forall fuel, List.length pages < fuel ->
       Refresh.get_users_in_org w fuel
       = Some (result_of pages r,
               t1 ++ [Request (users_url w (List.length pages))])).
Proof.
  intros Hpages Hs Hcall Hstop.
  destruct (paginate_ends_at Hpages [] Hs Hcall Hstop) as [Hnone Hsome].
  split; intros fuel Hfuel; unfold Refresh.get_users_in_org;
    rewrite Refresh_loop_paginate; [apply Hnone | apply Hsome]; assumption.
Qed.

(** C5, amended: a request that yields a status that is neither 200 nor
    retryable, or that raises in adobe_license_monitor.py (where
    [make_call] catches the exception), ends the fetch.  When the calls for
    the pages 0, ..., n - 1 have brought pages and the call for the page n
    ends with such a request, the loop is still running after n iterations
    or fewer, and with more it returns, after this request, the users of
    these n pages: the data received before the failure is kept, and the
    result is empty when there is none, as when the first request of the
    run fails.  In every run that ends, such a request is the last event.
    In refresh_adobe_license_monitor.py a request that raises ends the
    fetch too, but with the exception: no list is returned. *)
Theorem failed_fetch_returns_earlier_pages (w : world) :
  (forall pages t1 r t0 url,
      Forall (fun p => lastPage p = false) pages ->
      serves (Monitor.make_call w) (users_url w) [] 0 pages t1 ->
      Monitor.make_call w (users_url w (List.length pages)) t1
      = (r, t0 ++ [Request url]) ->
      failed (http w t0 url) = true ->
      (forall fuel, fuel <= List.length pages ->
         Monitor.get_users_in_org w fuel = None)
      /\ (forall fuel, List.length pages < fuel ->
           Monitor.get_users_in_org w fuel
           = Some (Returned (flat_map users pages), t0 ++ [Request url])))
  /\ (forall pages t1,
      Forall (fun p => lastPage p = false) pages ->
      serves (get_page w) (users_url w) [] 0 pages t1 ->
      failed_status (http w t1 (users_url w (List.length pages))) = true ->
      (forall fuel, fuel <= List.length pages ->
         Refresh.get_users_in_org w fuel = None)
      /\ (forall fuel, List.length pages < fuel ->
           Refresh.get_users_in_org w fuel
           = Some (Returned (flat_map users pages),
                   t1 ++ [Request (users_url w (List.length pages))])))
  /\ (forall pages t1,
      Forall (fun p => lastPage p = false) pages ->
      serves (get_page w) (users_url w) [] 0 pages t1 ->
      http w t1 (users_url w (List.length pages)) = Raises ->
      (forall fuel, fuel <= List.length pages ->
         Refresh.get_users_in_org w fuel = None)
      /\ (forall fuel, List.length pages < fuel ->
           Refresh.get_users_in_org w fuel
           = Some (Propagated,
                   t1 ++ [Request (users_url w (List.length pages))])))
  /\ (failed (http w [] (users_url w 0)) = true ->
      forall fuel, 0 < fuel ->
        Monitor.get_users_in_org w fuel
        = Some (Returned [], [Request (users_url w 0)]))
  /\ (failed_status (http w [] (users_url w 0)) = true ->
      forall fuel, 0 < fuel ->
        Refresh.get_users_in_org w fuel
        = Some (Returned [], [Request (users_url w 0)]))
  /\ (forall fuel res t t0 url rest,
      Monitor.get_users_in_org w fuel = Some (res, t) ->
      t = t0 ++ Request url :: rest ->
      failed (http w t0 url) = true ->
      rest = [] /\ res = Returned (flat_map users (pages_in w [] t0)))
  /\ (forall fuel res t t0 url rest,
      Refresh.get_users_in_org w fuel = Some (res, t) ->
      t = t0 ++ Request url :: rest ->
      failed_status (http w t0 url) = true ->
      rest = [] /\ res = Returned (flat_map users (pages_in w [] t0))).
Proof.
  assert (HM : forall pages t1 r t0 url,
      Forall (fun p => lastPage p = false) pages ->
      serves (Monitor.make_call w) (users_url w) [] 0 pages t1 ->
      Monitor.make_call w (users_url w (List.length pages)) t1
      = (r, t0 ++ [Request url]) ->
      failed (http w t0 url) = true ->
      (forall fuel, fuel <= List.length pages ->
         Monitor.get_users_in_org w fuel = None)
      /\ (forall fuel, List.length pages < fuel ->
           Monitor.get_users_in_org w fuel
           = Some (Returned (flat_map users pages), t0 ++ [Request url]))).
  { intros pages t1 r t0 url Hpages Hs Hcall Hbad.
    pose proof (@make_call_failed w _ _ _ _ _ Hcall Hbad) as Hr. subst r.
    destruct (paginate_ends_at Hpages [] Hs Hcall eq_refl) as [Hnone Hsome].
    split; intros fuel Hfuel; unfold Monitor.get_users_in_org;
      rewrite Monitor_loop_paginate; [apply Hnone | apply Hsome]; assumption. }
  assert (HR : forall pages t1,
      Forall (fun p => lastPage p = false) pages ->
      serves (get_page w) (users_url w) [] 0 pages t1 ->
      failed_status (http w t1 (users_url w (List.length pages))) = true ->
      (forall fuel, fuel <= List.length pages ->
         Refresh.get_users_in_org w fuel = None)
      /\ (forall fuel, List.length pages < fuel ->
           Refresh.get_users_in_org w fuel
           = Some (Returned (flat_map users pages),
                   t1 ++ [Request (users_url w (List.length pages))]))).
  { intros pages t1 Hpages Hs Hbad.
    apply (@Refresh_ends_at w pages t1 PyNone Hpages Hs);
      [|reflexivity].
    apply get_page_not_ok, failed_status_not_ok, Hbad. }
  split; [exact HM|]. split; [exact HR|]. split; [|split; [|split; [|split]]].
  - intros pages t1 Hpages Hs Hraise.
    apply (@Refresh_ends_at w pages t1 Uncaught Hpages Hs);
      [|reflexivity].
    apply get_page_raises, Hraise.
  - intros Hbad fuel Hfuel.
    apply (proj2 (HM [] [] PyNone [] (users_url w 0) (Forall_nil _)
                    (@serves_nil _ _ [] 0)
                    (@make_call_fails_at_once w _ _ Hbad) Hbad)).
    exact Hfuel.
  - intros Hbad fuel Hfuel.
    apply (proj2 (HR [] [] (Forall_nil _) (@serves_nil _ _ [] 0) Hbad)).
    exact Hfuel.
  - intros fuel res t t0 url rest H Ht Hbad.
    unfold Monitor.get_users_in_org in H. rewrite Monitor_loop_paginate in H.
    apply (paginate_stops_at_bad (Monitor.make_call w) (users_url w)
             (fun url t0 res t1 => @attempts_trace w url [1; 2; 3; 4]%Z t0 res t1)
             fuel t0 rest url H Ht Hbad).
  - intros fuel res t t0 url rest H Ht Hbad.
    unfold Refresh.get_users_in_org in H. rewrite Refresh_loop_paginate in H.
    apply (paginate_stops_at_bad (get_page w) (users_url w)
             (@get_page_trace w) fuel t0 rest url H Ht Hbad).
Qed.

(** The theorem on the server that answers 500 for the second page: two
    iterations return Alice, the user of the first page. *)
Lemma failed_fetch_returns_earlier_pages_witness :
  Monitor.get_users_in_org failing_server 2
  = Some (Returned (flat_map users [first_page]),
          [Request (users_url failing_server 0)]
            ++ [Request (users_url failing_server 1)]).
Proof.
  refine (proj2 (proj1 (failed_fetch_returns_earlier_pages failing_server)
                   [first_page] [Request (users_url failing_server 0)]
                   PyNone [Request (users_url failing_server 0)]
                   (users_url failing_server 1) _ _ _ _) 2 _).
  - constructor; [reflexivity | constructor].
  - eapply serves_cons; [vm_compute; reflexivity | apply serves_nil].
  - vm_compute; reflexivity.
  - vm_compute; reflexivity.
  - simpl; lia.
Defined.

(** * Further properties of the code *)

(** ** The aggregator on the sequence of group strings *)

(** The two loops of the aggregator are one loop over the group strings of
    all users, in order. *)
Lemma tally_flat (skip : str -> bool) (users : list user) :
  forall d,
    tally skip d users
    = fold_left (tally_group skip) (flat_map user_groups users) d.
Proof.
  unfold tally. induction users as [|u users IH]; intros d; simpl.
  - reflexivity.
  - rewrite fold_left_app. apply IH.
Qed.

(** Passing over a group is the same as not meeting it. *)
Lemma fold_keep (skip : str -> bool) (gs : list str) :
  forall d,
    fold_left (tally_group skip) gs d
    = fold_left (tally_group (fun _ => false)) (keep skip gs) d.
Proof.
  induction gs as [|g gs IH]; intros d; simpl; [reflexivity|].
  unfold tally_group at 2. unfold keep; simpl.
  destruct (skip g); simpl; [apply IH|].
  rewrite IH. reflexivity.
Qed.

Lemma flat_map_without_excluded (users : list user) :
  flat_map user_groups (List.map without_excluded users)
  = keep Refresh.is_excluded (flat_map user_groups users).
Proof.
  unfold keep. induction users as [|u users IH]; simpl; [reflexivity|].
  rewrite filter_app, IH. reflexivity.
Qed.

Lemma Monitor_counts_flat (users : list user) :
  Monitor.license_counts users
  = fold_left (tally_group (fun _ => false)) (flat_map user_groups users) [].
Proof. rewrite Monitor_license_counts; apply tally_flat. Qed.

Lemma Refresh_counts_flat (users : list user) :
  Refresh.license_counts users
  = fold_left (tally_group (fun _ => false))
      (counted Refresh.EXCLUDED_GROUPS users) [].
Proof.
  rewrite Refresh_license_counts, tally_flat, fold_keep. reflexivity.
Qed.

(** X3: the report depends on the users only through the sequence of their
    group strings: two lists of users with the same group strings in the
    same order, whoever holds them and whether or not a user has the key
    [groups], give the same report; in the refresh script the same holds
    as soon as the group strings that are not excluded agree. *)
Theorem report_reads_group_strings_only (users users' : list user) :
  (flat_map user_groups users = flat_map user_groups users' ->
   Monitor.summarize_licenses users = Monitor.summarize_licenses users')
  /\ (counted Refresh.EXCLUDED_GROUPS users
      = counted Refresh.EXCLUDED_GROUPS users' ->
      Refresh.summarize_licenses users = Refresh.summarize_licenses users').
Proof.
  split; intros H.
  - unfold Monitor.summarize_licenses.
    rewrite (Monitor_counts_flat users), (Monitor_counts_flat users'), H.
    reflexivity.
  - unfold Refresh.summarize_licenses.
    rewrite (Refresh_counts_flat users), (Refresh_counts_flat users'), H.
    reflexivity.
Qed.

(** A user without the key [groups] and a user without any group change
    nothing, and Bob's excluded group does not count in the refresh
    script. *)
Lemma report_reads_group_strings_only_witness :
  Monitor.summarize_licenses [carol; alice; {| groups := Some [] |}]
  = Monitor.summarize_licenses [alice].
Proof.
  apply (proj1 (report_reads_group_strings_only
                  [carol; alice; {| groups := Some [] |}] [alice])).
  reflexivity.
Defined.

(** X4: the aggregator of the refresh script is the aggregator of the other
    script run on the users without their excluded groups: same
    dictionary, in the same order, and same report. *)
Theorem refresh_is_monitor_without_excluded (users : list user) :
  Refresh.license_counts users
  = Monitor.license_counts (List.map without_excluded users)
  /\ Refresh.summarize_licenses users
     = Monitor.summarize_licenses (List.map without_excluded users).
Proof.
  assert (H : Refresh.license_counts users
              = Monitor.license_counts (List.map without_excluded users)).
  { rewrite Refresh_counts_flat, Monitor_counts_flat.
    rewrite flat_map_without_excluded. reflexivity. }
  split; [exact H|].
  unfold Refresh.summarize_licenses, Monitor.summarize_licenses.
  rewrite H. reflexivity.
Qed.

(** X5: counting composes: the count of a product over two lists of users
    put end to end is the sum of its counts over each list. *)
Theorem counts_add_up (users users' : list user) (product : str) :
  get (Monitor.license_counts (users ++ users')) product 0
  = get (Monitor.license_counts users) product 0
    + get (Monitor.license_counts users') product 0
  /\ get (Refresh.license_counts (users ++ users')) product 0
     = get (Refresh.license_counts users) product 0
       + get (Refresh.license_counts users') product 0.
Proof.
  assert (H : forall skip,
    get (tally skip [] (users ++ users')) product 0
    = get (tally skip [] users) product 0
      + get (tally skip [] users') product 0).
  { intros skip. rewrite !tally_get. unfold kept, keep.
    rewrite flat_map_app, filter_app, occurrences_app. reflexivity. }
  split; [apply (H (fun _ => false)) | apply (H Refresh.is_excluded)].
Qed.

(** ** The order of the report lines *)

Lemma filter_filter_andb (A : Type) (f g : A -> bool) (l : list A) :
  filter f (filter g l) = filter (fun x => f x && g x) l.
Proof.
  induction l as [|x l IH]; simpl; [reflexivity|].
  destruct (g x); simpl; rewrite ?andb_true_r, ?andb_false_r;
    [destruct (f x)|]; rewrite IH; reflexivity.
Qed.

Lemma existsb_eqb_In (k : str) (l : list str) :
  existsb (fun z => eqb z k) l = true <-> In k l.
Proof.
  rewrite existsb_exists. split.
  - intros [z [Hin Hz]]. apply eqb_eq in Hz; subst; assumption.
  - intros Hin. exists k; split; [assumption | apply eqb_refl].
Qed.

Lemma In_distinct (x : str) (names : list str) :
  In x (distinct names) <-> In x names.
Proof.
  induction names as [|y names IH]; simpl; [tauto|].
  rewrite filter_In, IH, negb_true_iff, eqb_neq.
  destruct (eqb y x) eqn:E.
  - apply eqb_eq in E. tauto.
  - apply eqb_neq in E. tauto.
Qed.

Lemma NoDup_distinct (names : list str) : NoDup (distinct names).
Proof.
  induction names as [|y names IH]; simpl; constructor.
  - rewrite filter_In, negb_true_iff, eqb_neq. tauto.
  - apply NoDup_filter; assumption.
Qed.

(** The keys after one group, from the keys before it. *)
Lemma keys_tally_group (d : dict nat) (g : str) :
  keys (tally_group (fun _ => false) d g)
  = if existsb (fun z => eqb z (cleaned_group g)) (keys d)
    then keys d else keys d ++ [cleaned_group g].
Proof.
  unfold tally_group. rewrite keys_set.
  destruct (existsb (fun z => eqb z (cleaned_group g)) (keys d)) eqn:E.
  - apply existsb_eqb_In in E.
    destruct (lookup d (cleaned_group g)) eqn:El; [reflexivity|].
    apply lookup_None in El. contradiction.
  - destruct (lookup d (cleaned_group g)) eqn:El; [|reflexivity].
    assert (Hin : In (cleaned_group g) (keys d)).
    { destruct (in_dec (list_eq_dec N.eq_dec) (cleaned_group g) (keys d))
        as [Hin | Hnot]; [assumption|].
      apply lookup_None in Hnot. congruence. }
    apply existsb_eqb_In in Hin. congruence.
Qed.

Lemma keys_fold (gs : list str) :
  forall d,
    keys (fold_left (tally_group (fun _ => false)) gs d)
    = keys d
      ++ filter (fun y => negb (existsb (fun z => eqb z y) (keys d)))
           (distinct (List.map cleaned_group gs)).
Proof.
  induction gs as [|g gs IH]; intros d; simpl.
  - rewrite app_nil_r; reflexivity.
  - rewrite IH, keys_tally_group.
    set (k := cleaned_group g). set (D := distinct (List.map cleaned_group gs)).
    destruct (existsb (fun z => eqb z k) (keys d)) eqn:E; simpl.
    + f_equal. rewrite filter_filter_andb. apply filter_ext; intros y.
      destruct (existsb (fun z => eqb z y) (keys d)) eqn:Ey; simpl;
        [reflexivity|].
      destruct (eqb k y) eqn:Eky; [|reflexivity].
      apply eqb_eq in Eky; subst y. congruence.
    + rewrite <- app_assoc; simpl. do 2 f_equal.
      rewrite filter_filter_andb. apply filter_ext; intros y.
      rewrite existsb_app; simpl. rewrite orb_false_r, negb_orb.
      reflexivity.
Qed.

(** X6: the dictionary holds one entry per distinct cleaned product name,
    in the order in which the names are first met among the counted group
    strings; the report lines follow this order. *)
Theorem products_in_order_of_first_occurrence (users : list user) :
  keys (Monitor.license_counts users)
  = distinct (List.map cleaned_group (flat_map user_groups users))
  /\ keys (Refresh.license_counts users)
     = distinct (List.map cleaned_group
                   (counted Refresh.EXCLUDED_GROUPS users)).
Proof.
  assert (H : forall gs,
    keys (fold_left (tally_group (fun _ => false)) gs [])
    = distinct (List.map cleaned_group gs)).
  { intros gs. rewrite keys_fold; simpl.
    induction (distinct (List.map cleaned_group gs)) as [|x l IH]; simpl;
      [reflexivity | f_equal; exact IH]. }
  split.
  - rewrite Monitor_counts_flat. apply H.
  - rewrite Refresh_counts_flat. apply H.
Qed.

(** ** The empty report *)

Lemma summary_line_not_empty (mapping : dict nat) (item : str * nat) :
  summary_line mapping item <> [].
Proof.
  destruct item as [name used]. intros H.
  apply (f_equal (@List.length _)) in H.
  unfold summary_line in H. rewrite !length_app in H. simpl in H. lia.
Qed.

Lemma join_empty (sep : str) (lines : list str) :
  sep <> [] -> Forall (fun line => line <> []) lines ->
  join sep lines = [] -> lines = [].
Proof.
  intros Hsep Hlines H. destruct lines as [|p [|q rest]]; [reflexivity| |].
  - inversion Hlines; subst. simpl in H. contradiction.
  - inversion Hlines; subst. simpl in H.
    apply app_eq_nil in H. destruct H. contradiction.
Qed.

Lemma report_empty (skip : str -> bool) (mapping : dict nat)
    (users : list user) :
  report mapping (tally skip [] users) = [] <-> kept skip users = [].
Proof.
  split; intros H.
  - unfold report in H. apply join_empty in H; [|discriminate|].
    + unfold summary in H. apply map_eq_nil in H.
      destruct (kept skip users) as [|g gs] eqn:E; [reflexivity|].
      pose proof (tally_lookup skip users (cleaned_group g)) as Hl.
      rewrite H, E in Hl. unfold occurrences in Hl; simpl in Hl.
      rewrite eqb_refl in Hl. simpl in Hl. discriminate Hl.
    + unfold summary. rewrite Forall_forall. intros line Hin.
      apply in_map_iff in Hin. destruct Hin as [item [<- _]].
      apply summary_line_not_empty.
  - rewrite tally_flat, fold_keep. unfold kept in H. rewrite H. reflexivity.
Qed.

(** X7: the report is the empty text exactly when no group string is
    counted: no user has a group or, in the refresh script, every group is
    excluded. *)
Theorem report_empty_iff_nothing_counted (users : list user) :
  (Monitor.summarize_licenses users = []
   <-> flat_map user_groups users = [])
  /\ (Refresh.summarize_licenses users = []
      <-> counted Refresh.EXCLUDED_GROUPS users = []).
Proof.
  split.
  - rewrite <- kept_all. apply (report_empty (fun _ => false)).
  - apply (report_empty Refresh.is_excluded).
Qed.

(** ** The cleaned name *)

Lemma lstrip_head (s : str) :
  match lstrip s with
  | [] => True
  | c :: _ => isspace c = false
  end.
Proof.
  induction s as [|a s IH]; simpl; [exact I|].
  destruct (isspace a) eqn:E; [exact IH | exact E].
Qed.

Lemma strip_stripped (s : str) : stripped (strip s).
Proof.
  unfold strip. pose proof (lstrip_head s) as Hh.
  destruct (lstrip s) as [|c r]; [exact I|].
  rewrite rstrip_cons by assumption. simpl. split; [assumption|].
  unfold rstrip. pose proof (lstrip_head (rev r)) as Hr.
  destruct (lstrip (rev r)) as [|c' l']; simpl; [assumption|].
  destruct (rev l' ++ [c']) as [|x y] eqn:E.
  - destruct (rev l'); discriminate E.
  - rewrite <- E.
    change (match rev l' ++ [c'] with [] => c | _ :: _ => last (rev l' ++ [c']) c end)
      with (last (c :: rev l' ++ [c']) c).
    change (c :: rev l' ++ [c']) with ((c :: rev l') ++ [c']).
    rewrite last_last. assumption.
Qed.

Lemma lstrip_length (s : str) : List.length (lstrip s) <= List.length s.
Proof.
  induction s as [|a s IH]; simpl; [lia|].
  destruct (isspace a); simpl; lia.
Qed.

Lemma strip_length (s : str) : List.length (strip s) <= List.length s.
Proof.
  unfold strip, rstrip. rewrite length_rev.
  pose proof (lstrip_length (rev (lstrip s))) as H1.
  pose proof (lstrip_length s) as H2.
  rewrite length_rev in H1. lia.
Qed.

Lemma replace_from_length (old : str) (s : str) :
  forall skip,
    List.length (replace_from old [] skip s) <= List.length s.
Proof.
  induction s as [|c s IH]; intros skip; simpl; [lia|].
  destruct skip as [|k].
  - destruct (startswith old (c :: s)); simpl.
    + specialize (IH (List.length old - 1)). lia.
    + specialize (IH 0). lia.
  - specialize (IH k). lia.
Qed.

Lemma remove_length (old s : str) :
  List.length (replace old [] s) <= List.length s.
Proof.
  destruct old as [|x old]; simpl.
  - induction s as [|c s IH]; simpl; lia.
  - apply (replace_from_length (x :: old) s 0).
Qed.

(** X8: a cleaned name has no white space at either end, and is never
    longer than the group name it comes from. *)
Theorem cleaned_group_is_stripped_and_no_longer (group : str) :
  stripped (cleaned_group group)
  /\ List.length (cleaned_group group) <= List.length group.
Proof.
  split; [apply strip_stripped|].
  unfold cleaned_group.
  repeat (eapply Nat.le_trans;
          [first [apply strip_length | apply remove_length]|]).
  apply Nat.le_refl.
Qed.

(** ** [make_call]: where data comes from, and the waits *)

Lemma attempts_json (w : world) (url : str) (range : list Z) :
  forall t p t',
    Monitor.attempts w url range t = (Json p, t') ->
    exists t0 r,
      t' = t0 ++ [Request url]
      /\ http w t0 url = Responds r
      /\ status_code r = 200%Z
      /\ json r = p.
Proof.
  induction range as [|attempt range IH]; simpl; intros t p t' H;
    [discriminate H|].
  destruct (http w t url) as [r|] eqn:Eh; [|discriminate H].
  destruct (status_code r =? 200)%Z eqn:E200.
  - injection H as <- <-. exists t, r. apply Z.eqb_eq in E200. auto.
  - destruct (Monitor.retryable (status_code r)); [|discriminate H].
    destruct (Monitor.retry_wait_of w (t ++ [Request url]) attempt r)
      as [retry_wait|]; [|discriminate H].
    destruct (attempt <? 4)%Z.
    + destruct (sleep_raises retry_wait); [discriminate H|].
      apply IH in H. exact H.
    + apply IH in H. exact H.
Qed.

(** X9: [make_call] returns data only from a response with status 200, and
    that response answers the last request of the call: data of a response
    with any other status is never returned. *)
Theorem make_call_data_from_200_only (w : world) (url : str) (t : trace)
    (p : page) (t' : trace) :
  Monitor.make_call w url t = (Json p, t') ->
  exists t0 r,
    t' = t0 ++ [Request url]
    /\ http w t0 url = Responds r
    /\ status_code r = 200%Z
    /\ json r = p.
Proof.
  apply attempts_json.
Qed.

Lemma make_call_data_from_200_only_witness :
  exists t0 r,
    [ Request (users_url retry_server 0);
      Request (users_url retry_server 1); Sleep 2;
      Request (users_url retry_server 1) ]
    = t0 ++ [Request (users_url retry_server 1)]
    /\ http retry_server t0 (users_url retry_server 1) = Responds r
    /\ status_code r = 200%Z
    /\ json r = second_page.
Proof.
  apply (@make_call_data_from_200_only retry_server
           (users_url retry_server 1) [Request (users_url retry_server 0)]).
  vm_compute; reflexivity.
Defined.

Lemma alternates_request (url : str) : alternates url [Request url] = true.
Proof. simpl. rewrite eqb_refl. reflexivity. Qed.

Lemma alternates_sleep (url : str) (secs : Z) (seg : trace) :
  sleep_raises secs = false ->
  alternates url seg = true ->
  alternates url (Request url :: Sleep secs :: seg) = true.
Proof.
  intros Hs Hseg. apply sleep_accepts in Hs. destruct Hs as [Hs _].
  change (alternates url (Request url :: Sleep secs :: seg))
    with (eqb url url && ((0 <=? secs)%Z && alternates url seg)).
  rewrite eqb_refl, Hseg. simpl. rewrite andb_true_r.
  apply Z.leb_le; assumption.
Qed.

Lemma attempts_alternate (w : world) (url : str) (range : list Z) :
  backoff_range range = true ->
  range <> [] ->
  forall t res t',
    Monitor.attempts w url range t = (res, t') ->
    exists seg, t' = t ++ seg /\ alternates url seg = true.
Proof.
  induction range as [|attempt range IH]; intros Hb Hne; [congruence|].
  intros t res t' H.
  assert (Hstop : exists seg,
            t ++ [Request url] = t ++ seg /\ alternates url seg = true).
  { exists [Request url]. split; [reflexivity | apply alternates_request]. }
  destruct range as [|next range].
  - simpl in Hb. apply negb_true_iff in Hb. simpl in H. rewrite Hb in H.
    destruct (http w t url) as [r|]; [|injection H as <- <-; exact Hstop].
    destruct (status_code r =? 200)%Z; [injection H as <- <-; exact Hstop|].
    destruct (Monitor.retryable (status_code r));
      [|injection H as <- <-; exact Hstop].
    destruct (Monitor.retry_wait_of w (t ++ [Request url]) attempt r);
      injection H as <- <-; exact Hstop.
  - assert (Hlt : (attempt <? 4)%Z = true
                  /\ backoff_range (next :: range) = true).
    { change (backoff_range (attempt :: next :: range))
        with ((attempt <? 4)%Z && backoff_range (next :: range)) in Hb.
      apply andb_true_iff in Hb. exact Hb. }
    destruct Hlt as [Hlt Hb'].
    change (Monitor.attempts w url (attempt :: next :: range) t)
      with (match http w t url with
            | Raises => (PyNone, t ++ [Request url])
            | Responds r =>
                if (status_code r =? 200)%Z then (Json (json r), t ++ [Request url])
                else if Monitor.retryable (status_code r) then
                  match Monitor.retry_wait_of w (t ++ [Request url]) attempt r with
                  | None => (PyNone, t ++ [Request url])
                  | Some retry_wait =>
                      if (attempt <? 4)%Z then
                        if sleep_raises retry_wait then (Uncaught, t ++ [Request url])
                        else Monitor.attempts w url (next :: range)
                               ((t ++ [Request url]) ++ [Sleep retry_wait])
                      else Monitor.attempts w url (next :: range) (t ++ [Request url])
                  end
                else (PyNone, t ++ [Request url])
            end) in H.
    rewrite Hlt in H.
    destruct (http w t url) as [r|]; [|injection H as <- <-; exact Hstop].
    destruct (status_code r =? 200)%Z; [injection H as <- <-; exact Hstop|].
    destruct (Monitor.retryable (status_code r));
      [|injection H as <- <-; exact Hstop].
    destruct (Monitor.retry_wait_of w (t ++ [Request url]) attempt r)
      as [retry_wait|]; [|injection H as <- <-; exact Hstop].
    destruct (sleep_raises retry_wait) eqn:Hs;
      [injection H as <- <-; exact Hstop|].
    apply (IH Hb') in H; [|discriminate].
    destruct H as [seg [-> Hseg]].
    exists (Request url :: Sleep retry_wait :: seg).
    split; [rewrite <- !app_assoc; reflexivity|].
    apply alternates_sleep; assumption.
Qed.

(** X10: the events of every call of [make_call] are a request, then any
    number of times a sleep and a request: it never sleeps before its first
    request, after its last request or twice in a row, never sleeps a
    negative time, and requests nothing but its URL. *)
Theorem make_call_alternates (w : world) (url : str) (t : trace)
    (res : call_result) (t' : trace) :
  Monitor.make_call w url t = (res, t') ->
  exists seg, t' = t ++ seg /\ alternates url seg = true.
Proof.
  apply attempts_alternate; [reflexivity | discriminate].
Qed.

Lemma make_call_alternates_witness :
  exists seg,
    [ Request (lit "u"); Sleep 2; Request (lit "u"); Sleep 4;
      Request (lit "u"); Sleep 8; Request (lit "u") ]
    = [] ++ seg
    /\ alternates (lit "u") seg = true.
Proof.
  apply (@make_call_alternates (always (answer 429 NoRetryAfter no_page))
           (lit "u") [] PyNone).
  reflexivity.
Defined.

(** One attempt that is answered with a retryable status and a wait. *)
Lemma attempts_retry (w : world) (url : str) (attempt : Z) (rest : list Z)
    (t : trace) (r : response) (retry_wait : Z) :
  http w t url = Responds r ->
  Monitor.retryable (status_code r) = true ->
  Monitor.retry_wait_of w (t ++ [Request url]) attempt r = Some retry_wait ->
  sleep_raises retry_wait = false ->
  Monitor.attempts w url (attempt :: rest) t
  = if (attempt <? 4)%Z
    then Monitor.attempts w url rest
           ((t ++ [Request url]) ++ [Sleep retry_wait])
    else Monitor.attempts w url rest (t ++ [Request url]).
Proof.
  intros Eh Er Ew Es. simpl.
  rewrite Eh, (retryable_not_200 _ Er), Er, Ew.
  destruct (attempt <? 4)%Z; [rewrite Es|]; reflexivity.
Qed.

Lemma default_wait (w : world) (t : trace) (attempt : Z) (r : response) :
  retry_after_header r = NoRetryAfter ->
  (0 <= attempt <= 4)%Z ->
  exists retry_wait,
    Monitor.retry_wait_of w t attempt r = Some retry_wait
    /\ (2 ^ attempt <= retry_wait <= 2 ^ attempt + 5)%Z
    /\ sleep_raises retry_wait = false.
Proof.
  intros Hh Ha. unfold Monitor.retry_wait_of. rewrite Hh.
  eexists; split; [reflexivity|].
  assert (0 <= 2 ^ attempt <= 16)%Z by (apply power_of_attempt; lia).
  assert (0 <= jitter_value (randint_0_5 w t) <= 5)%Z
    by (destruct (randint_0_5 w t); simpl; lia).
  split; [lia|]. apply sleep_accepts. unfold SLEEP_MAX. lia.
Qed.

(** X11: exponential backoff with jitter.  When every answer has a
    retryable status and no [Retry-After] header, a call makes four
    requests and sleeps three times in between, for 2 to 7, 4 to 9 and 8 to
    13 seconds, and does not sleep after the fourth request. *)
Theorem backoff_without_retry_after (w : world) (url : str) (t : trace) :
  (forall t0, exists r,
      http w t0 url = Responds r
      /\ Monitor.retryable (status_code r) = true
      /\ retry_after_header r = NoRetryAfter) ->
  exists s1 s2 s3,
    (2 <= s1 <= 7)%Z /\ (4 <= s2 <= 9)%Z /\ (8 <= s3 <= 13)%Z
    /\ Monitor.make_call w url t
       = (PyNone,
          t ++ [ Request url; Sleep s1; Request url; Sleep s2;
                 Request url; Sleep s3; Request url ]).
Proof.
  intros H. unfold Monitor.make_call.
  destruct (H t) as [r1 [E1 [R1 H1]]].
  destruct (@default_wait w (t ++ [Request url]) 1%Z r1 H1)
    as [s1 [W1 [B1 S1]]];
    [lia|].
  rewrite (@attempts_retry w url 1%Z _ t _ _ E1 R1 W1 S1).
  simpl (1 <? 4)%Z. cbv iota.
  set (t1 := (t ++ [Request url]) ++ [Sleep s1]).
  destruct (H t1) as [r2 [E2 [R2 H2]]].
  destruct (@default_wait w (t1 ++ [Request url]) 2%Z r2 H2)
    as [s2 [W2 [B2 S2]]];
    [lia|].
  rewrite (@attempts_retry w url 2%Z _ t1 _ _ E2 R2 W2 S2).
  simpl (2 <? 4)%Z. cbv iota.
  set (t2 := (t1 ++ [Request url]) ++ [Sleep s2]).
  destruct (H t2) as [r3 [E3 [R3 H3]]].
  destruct (@default_wait w (t2 ++ [Request url]) 3%Z r3 H3)
    as [s3 [W3 [B3 S3]]];
    [lia|].
  rewrite (@attempts_retry w url 3%Z _ t2 _ _ E3 R3 W3 S3).
  simpl (3 <? 4)%Z. cbv iota.
  set (t3 := (t2 ++ [Request url]) ++ [Sleep s3]).
  destruct (H t3) as [r4 [E4 [R4 H4]]].
  destruct (@default_wait w (t3 ++ [Request url]) 4%Z r4 H4)
    as [s4 [W4 [B4 S4]]];
    [lia|].
  rewrite (@attempts_retry w url 4%Z _ t3 _ _ E4 R4 W4 S4).
  simpl (4 <? 4)%Z. cbv iota.
  exists s1, s2, s3.
  change (2 ^ 1)%Z with 2%Z in B1. change (2 ^ 2)%Z with 4%Z in B2.
  change (2 ^ 3)%Z with 8%Z in B3.
  repeat split; try lia.
  simpl. unfold t3, t2, t1. rewrite <- !app_assoc. reflexivity.
Qed.

Lemma backoff_without_retry_after_witness :
  exists s1 s2 s3,
    (2 <= s1 <= 7)%Z /\ (4 <= s2 <= 9)%Z /\ (8 <= s3 <= 13)%Z
    /\ Monitor.make_call (always (answer 503 NoRetryAfter no_page))
         (lit "u") []
       = (PyNone,
          [] ++ [ Request (lit "u"); Sleep s1; Request (lit "u"); Sleep s2;
                  Request (lit "u"); Sleep s3; Request (lit "u") ]).
Proof.
  apply (@backoff_without_retry_after
           (always (answer 503 NoRetryAfter no_page)) (lit "u") []).
  intros t0. eexists. split; [reflexivity|]. split; reflexivity.
Defined.



(** ** adobe_license_monitor.py: what leaves [make_call] *)




(** ** refresh_adobe_license_monitor.py: no retry, no handler *)

Lemma get_page_trace_not_ok (w : world) (url : str) (t : trace)
    (res : call_result) (t' : trace) :
  get_page w url t = (res, t') ->
  exists ext, t' = t ++ ext /\ call_trace w not_ok url t res ext.
Proof.
  unfold get_page; intros H. exists [Request url].
  destruct (http w t url) as [r|] eqn:Eh.
  - destruct (status_code r =? 200)%Z eqn:E200; injection H as <- <-;
      (split; [reflexivity|]).
    + left; simpl; rewrite Eh; simpl; rewrite E200; split; reflexivity.
    + right; split; [reflexivity|]. exists []; simpl.
      rewrite app_nil_r, Eh; simpl; rewrite E200. auto.
  - injection H as <- <-; split; [reflexivity|].
    left; simpl; rewrite Eh; split; reflexivity.
Qed.

(** X14: the refresh script does not retry.  Any response whose status is
    not 200, the retryable ones included, ends the fetch.  When the
    requests for the pages 0, ..., n - 1 have brought pages and the request
    for the page n gets such a response, the loop is still running after n
    iterations or fewer, and with more it returns the users of these n
    pages, after this one request for the page n.  In every run that ends,
    such a response answers the last request. *)
Theorem refresh_stops_at_any_other_status (w : world) :
  (forall pages t1,
      Forall (fun p => lastPage p = false) pages ->
      serves (get_page w) (users_url w) [] 0 pages t1 ->
      not_ok (http w t1 (users_url w (List.length pages))) = true ->
      (forall fuel, fuel <= List.length pages ->
         Refresh.get_users_in_org w fuel = None)
      /\ (forall fuel, List.length pages < fuel ->
           Refresh.get_users_in_org w fuel
           = Some (Returned (flat_map users pages),
                   t1 ++ [Request (users_url w (List.length pages))])))
  /\ (forall fuel res t t0 rest url,
      Refresh.get_users_in_org w fuel = Some (res, t) ->
      t = t0 ++ Request url :: rest ->
      not_ok (http w t0 url) = true ->
      rest = [] /\ res = Returned (flat_map users (pages_in w [] t0))).
Proof.
  split.
  - intros pages t1 Hpages Hs Hbad.
    apply (@Refresh_ends_at w pages t1 PyNone Hpages Hs); [|reflexivity].
    apply get_page_not_ok, Hbad.
  - intros fuel res t t0 rest url H Ht Hbad.
    unfold Refresh.get_users_in_org in H. rewrite Refresh_loop_paginate in H.
    apply (paginate_stops_at_bad (get_page w) (users_url w)
             (@get_page_trace_not_ok w) fuel t0 rest url H Ht Hbad).
Qed.

(** The server that answers 429 for the second page: the refresh script
    does not ask again, and returns Alice, the user of the first page. *)
Lemma refresh_stops_at_any_other_status_witness :
  Refresh.get_users_in_org retry_server 2
  = Some (Returned (flat_map users [first_page]),
          [Request (users_url retry_server 0)]
            ++ [Request (users_url retry_server (List.length [first_page]))]).
Proof.
  refine (proj2 (proj1 (refresh_stops_at_any_other_status retry_server)
                   [first_page] [Request (users_url retry_server 0)]
                   _ _ _) 2 _).
  - constructor; [reflexivity | constructor].
  - eapply serves_cons; [vm_compute; reflexivity | apply serves_nil].
  - vm_compute; reflexivity.
  - simpl; lia.
Defined.

Lemma serves_get_page_quiet (w : world) (t : trace) (i : nat)
    (ps : list page) (t1 : trace) :
  serves (get_page w) (users_url w) t i ps t1 ->
  exists ext, t1 = t ++ ext /\ quiet w raised t ext = true.
Proof.
  induction 1 as [t i | t i p t1 ps t2 Hcall _ IH].
  - exists []; rewrite app_nil_r; split; reflexivity.
  - destruct IH as [ext [-> Hq]]. unfold get_page in Hcall.
    destruct (http w t (users_url w i)) as [r|] eqn:Eh; [|discriminate Hcall].
    destruct (status_code r =? 200)%Z; [|discriminate Hcall].
    injection Hcall as _ <-.
    exists (Request (users_url w i) :: ext).
    split; [rewrite <- app_assoc; reflexivity|].
    simpl. rewrite Eh. simpl. exact Hq.
Qed.

(** The last call of a run of the refresh script. *)
Lemma Refresh_last_call (w : world) (fuel : nat) (res : fetched) (t : trace) :
  Refresh.get_users_in_org w fuel = Some (res, t) ->
  exists pages t1 url,
    t = t1 ++ [Request url]
    /\ quiet w raised [] t1 = true
    /\ serves (get_page w) (users_url w) [] 0 pages t1
    /\ url = users_url w (List.length pages)
    /\ (http w t1 url = Raises <-> res = Propagated).
Proof.
  intros H. unfold Refresh.get_users_in_org in H.
  rewrite Refresh_loop_paginate in H. apply paginate_run_shape in H.
  destruct H as [pages [t1 [r [_ [Hs [Hcall [_ ->]]]]]]].
  destruct (serves_get_page_quiet Hs) as [ext [-> Hq]]. simpl in *.
  exists pages, ext, (users_url w (List.length pages)).
  unfold get_page in Hcall.
  destruct (http w ext (users_url w (List.length pages))) as [r0|].
  - destruct (status_code r0 =? 200)%Z; injection Hcall as <- <-;
      repeat split; auto; discriminate.
  - injection Hcall as <- <-. repeat split; auto.
Qed.

(** X15: in the refresh script nothing catches what [requests.get] raises.
    When the requests for the pages 0, ..., n - 1 have brought pages and
    the request for the page n raises, the loop is still running after n
    iterations or fewer, and with more the exception leaves
    [get_users_in_org] after this request: no list is returned, the users
    of the n pages are lost.  In every run that ends, a request that
    raises is the last event. *)
Theorem refresh_exception_escapes (w : world) :
  (forall pages t1,
      Forall (fun p => lastPage p = false) pages ->
      serves (get_page w) (users_url w) [] 0 pages t1 ->
      http w t1 (users_url w (List.length pages)) = Raises ->
      (forall fuel, fuel <= List.length pages ->
         Refresh.get_users_in_org w fuel = None)
      /\ (forall fuel, List.length pages < fuel ->
           Refresh.get_users_in_org w fuel
           = Some (Propagated,
                   t1 ++ [Request (users_url w (List.length pages))])))
  /\ (forall fuel res t t0 rest url,
      Refresh.get_users_in_org w fuel = Some (res, t) ->
      t = t0 ++ Request url :: rest ->
      http w t0 url = Raises ->
      rest = [] /\ res = Propagated).
Proof.
  split.
  - intros pages t1 Hpages Hs Hraise.
    apply (@Refresh_ends_at w pages t1 Uncaught Hpages Hs); [|reflexivity].
    apply get_page_raises, Hraise.
  - intros fuel res t t0 rest url H Ht Hraise. apply Refresh_last_call in H.
    destruct H as [pages [t1 [url' [Ht' [Hq [_ [_ Hiff]]]]]]].
    rewrite Ht in Ht'. apply app_last_cases in Ht'.
    destruct Ht' as [[-> [-> Heq]] | [rest' [_ ->]]].
    + injection Heq as ->. split; [reflexivity | apply Hiff; assumption].
    + apply quiet_request in Hq. simpl in Hq. rewrite Hraise in Hq.
      discriminate Hq.
Qed.

(** The server that drops the connection after the first page: Alice is
    lost. *)
Lemma refresh_exception_escapes_witness :
  Refresh.get_users_in_org dropping_server 2
  = Some (Propagated,
          [Request (users_url dropping_server 0)]
            ++ [Request
                  (users_url dropping_server (List.length [first_page]))]).
Proof.
  refine (proj2 (proj1 (refresh_exception_escapes dropping_server)
                   [first_page] [Request (users_url dropping_server 0)]
                   _ _ _) 2 _).
  - constructor; [reflexivity | constructor].
  - eapply serves_cons; [vm_compute; reflexivity | apply serves_nil].
  - vm_compute; reflexivity.
  - simpl; lia.
Defined.

(** X16: every run of the fetch of the refresh script that ends has
    requested the pages 0, 1, ..., n in this order, each once, and has done
    nothing else: no page is requested twice, none is skipped, and there is
    no sleep. *)
Theorem refresh_requests_each_page_once (w : world) (fuel : nat)
    (res : fetched) (t : trace) :
  Refresh.get_users_in_org w fuel = Some (res, t) ->
  exists n,
    t = List.map (fun i => Request (users_url w i)) (seq 0 (n + 1)).
Proof.
  intros H. unfold Refresh.get_users_in_org in H.
  rewrite Refresh_loop_paginate in H. apply paginate_run_shape in H.
  destruct H as [pages [t1 [r [_ [Hs [Hcall _]]]]]].
  exists (List.length pages). simpl in Hcall.
  destruct (run_segments (fun url seg => seg = [Request url])
              (@get_page_segment w) Hs Hcall) as [segs [-> Hsegs]].
  apply concat_single_requests; assumption.
Qed.

Lemma refresh_requests_each_page_once_witness :
  exists n,
    [ Request (users_url retry_server 0); Request (users_url retry_server 1) ]
    = List.map (fun i => Request (users_url retry_server i)) (seq 0 (n + 1)).
Proof.
  apply (@refresh_requests_each_page_once retry_server 2 (Returned [alice])).
  vm_compute; reflexivity.
Defined.

(** ** The URL of a page *)

Lemma digits_inj (u u' : Decimal.uint) : digits u = digits u' -> u = u'.
Proof.
  revert u'; induction u as [|u IH|u IH|u IH|u IH|u IH|u IH|u IH|u IH|u IH|u IH];
    intros [|u'|u'|u'|u'|u'|u'|u'|u'|u'|u']; simpl; intros H;
    try discriminate H; try reflexivity;
    injection H as H; f_equal; apply IH; exact H.
Qed.

(** Printing a number in decimal loses nothing. *)
Lemma of_nat_inj (n m : nat) : of_nat n = of_nat m -> n = m.
Proof.
  unfold of_nat; intros H. apply digits_inj in H.
  rewrite <- (DecimalNat.Unsigned.of_to n), <- (DecimalNat.Unsigned.of_to m), H.
  reflexivity.
Qed.

(** X17: two page indices never give the same URL, so that the server can
    tell the pages apart. *)
Theorem users_url_injective (w : world) (i j : nat) :
  users_url w i = users_url w j -> i = j.
Proof.
  unfold users_url. intros H.
  repeat apply app_inv_head in H.
  apply of_nat_inj; exact H.
Qed.

Lemma users_url_injective_witness : 7 = 7.
Proof.
  apply (@users_url_injective retry_server 7 7). reflexivity.
Defined.

(** ** The scripts as a whole *)

(** The [__main__] block of adobe_license_monitor.py, by what the fetch
    gives. *)
Lemma Monitor_main_of_fetch (s : site) (fuel : nat) (res : fetched)
    (t : trace) :
  Monitor.get_users_in_org (adobe s) fuel = Some (res, t) ->
  exists r,
    Monitor.main s fuel = Some r
    /\ fetch_events r = t
    /\ posted r = posts_of Monitor.summarize_licenses res.
Proof.
  intros H. unfold Monitor.main. rewrite H.
  destruct res as [[|u us]|].
  - eexists; split; [reflexivity|]. split; reflexivity.
  - unfold send_slack_alert.
    destruct (slack s (alert_text (Monitor.summarize_licenses (u :: us))));
      eexists; (split; [reflexivity|]); split; reflexivity.
  - eexists; split; [reflexivity|]. split; reflexivity.
Qed.

(** The same for refresh_adobe_license_monitor.py, once it has a token. *)
Lemma Refresh_main_of_fetch (s : site) (token : option str) (fuel : nat)
    (res : fetched) (t : trace) :
  token_endpoint s = TokenDict token ->
  Refresh.truthy token = true ->
  Refresh.get_users_in_org (adobe s) fuel = Some (res, t) ->
  exists r,
    Refresh.main s fuel = Some r
    /\ fetch_events r = t
    /\ posted r = posts_of Refresh.summarize_licenses res
    /\ (res = Propagated -> ended r = Crashed).
Proof.
  intros Htoken Htruthy H. unfold Refresh.main, Refresh.get_access_token.
  rewrite Htoken, Htruthy, H.
  destruct res as [[|u us]|].
  - eexists; split; [reflexivity|]. split; [reflexivity|].
    split; [reflexivity | discriminate].
  - unfold send_slack_alert.
    destruct (slack s (alert_text (Refresh.summarize_licenses (u :: us))));
      eexists; (split; [reflexivity|]); (split; [reflexivity|]);
      (split; [reflexivity | discriminate]).
  - eexists; split; [reflexivity|]. split; [reflexivity|].
    split; reflexivity.
Qed.

(** Where a run of adobe_license_monitor.py ends, and with what. *)
Lemma Monitor_main_ends (s : site) (pages : list page) (t1 : trace)
    (r : call_result) (t : trace) :
  Forall (fun p => lastPage p = false) pages ->
  serves (Monitor.make_call (adobe s)) (users_url (adobe s)) [] 0 pages t1 ->
  Monitor.make_call (adobe s) (users_url (adobe s) (List.length pages)) t1
  = (r, t) ->
  stops r = true ->
  (forall fuel, fuel <= List.length pages -> Monitor.main s fuel = None)
  /\ (forall fuel, List.length pages < fuel ->
       exists r0,
         Monitor.main s fuel = Some r0
         /\ fetch_events r0 = t
         /\ posted r0
            = posts_of Monitor.summarize_licenses (result_of pages r)).
Proof.
  intros Hpages Hs Hcall Hstop.
  destruct (paginate_ends_at Hpages [] Hs Hcall Hstop) as [Hnone Hsome].
  split; intros fuel Hfuel.
  - unfold Monitor.main, Monitor.get_users_in_org.
    rewrite Monitor_loop_paginate, (Hnone fuel Hfuel). reflexivity.
  - apply Monitor_main_of_fetch. unfold Monitor.get_users_in_org.
    rewrite Monitor_loop_paginate. apply Hsome; assumption.
Qed.

(** The same for refresh_adobe_license_monitor.py, once it has a token. *)
Lemma Refresh_main_ends (s : site) (token : option str) (pages : list page)
    (t1 : trace) (r : call_result) (t : trace) :
  token_endpoint s = TokenDict token ->
  Refresh.truthy token = true ->
  Forall (fun p => lastPage p = false) pages ->
  serves (get_page (adobe s)) (users_url (adobe s)) [] 0 pages t1 ->
  get_page (adobe s) (users_url (adobe s) (List.length pages)) t1 = (r, t) ->
  stops r = true ->
  (forall fuel, fuel <= List.length pages -> Refresh.main s fuel = None)
  /\ (forall fuel, List.length pages < fuel ->
       exists r0,
         Refresh.main s fuel = Some r0
         /\ fetch_events r0 = t
         /\ posted r0
            = posts_of Refresh.summarize_licenses (result_of pages r)
         /\ (r = Uncaught -> ended r0 = Crashed)).
Proof.
  intros Htoken Htruthy Hpages Hs Hcall Hstop.
  destruct (paginate_ends_at Hpages [] Hs Hcall Hstop) as [Hnone Hsome].
  split; intros fuel Hfuel.
  - unfold Refresh.main, Refresh.get_access_token, Refresh.get_users_in_org.
    rewrite Htoken, Htruthy, Refresh_loop_paginate, (Hnone fuel Hfuel).
    reflexivity.
  - destruct (@Refresh_main_of_fetch s token fuel (result_of pages r) t
                Htoken Htruthy) as [r0 [Hmain [Hev [Hposted Hcrash]]]].
    { unfold Refresh.get_users_in_org. rewrite Refresh_loop_paginate.
      apply Hsome; assumption. }
    exists r0. split; [exact Hmain|]. split; [exact Hev|].
    split; [exact Hposted|]. intros ->. apply Hcrash. reflexivity.
Qed.





(** X20: an alert without lines.  The scripts test the list of users, not
    the summary: when the fetch returns users, but none of their groups is
    counted (they have no group or, in the refresh script, excluded groups
    only), the alert is posted all the same, and it is the header followed
    by a line feed and nothing else. *)
Theorem alert_without_lines (s : site) :
  (forall pages t1 r t us,
      Forall (fun p => lastPage p = false) pages ->
      serves (Monitor.make_call (adobe s)) (users_url (adobe s)) [] 0
        pages t1 ->
      Monitor.make_call (adobe s) (users_url (adobe s) (List.length pages)) t1
      = (r, t) ->
      stops r = true ->
      result_of pages r = Returned us ->
      us <> [] ->
      flat_map user_groups us = [] ->
      forall fuel, List.length pages < fuel ->
        exists r0,
          Monitor.main s fuel = Some r0 /\ posted r0 = [alert_text []])
  /\ (forall token pages t1 r t us,
      token_endpoint s = TokenDict token -> Refresh.truthy token = true ->
      Forall (fun p => lastPage p = false) pages ->
      serves (get_page (adobe s)) (users_url (adobe s)) [] 0 pages t1 ->
      get_page (adobe s) (users_url (adobe s) (List.length pages)) t1
      = (r, t) ->
      stops r = true ->
      result_of pages r = Returned us ->
      us <> [] ->
      counted Refresh.EXCLUDED_GROUPS us = [] ->
      forall fuel, List.length pages < fuel ->
        exists r0,
          Refresh.main s fuel = Some r0 /\ posted r0 = [alert_text []]).
Proof.
  split.
  - intros pages t1 r t us Hpages Hs Hcall Hstop Hres Hus Hgroups fuel Hfuel.
    destruct (proj2 (Monitor_main_ends s Hpages Hs Hcall Hstop) fuel Hfuel)
      as [r0 [Hmain [_ Hposted]]].
    exists r0. split; [exact Hmain|]. rewrite Hposted, Hres.
    destruct us as [|u us]; [congruence|].
    unfold posts_of, alerts. do 2 f_equal.
    apply (report_empty (fun _ => false) Monitor.license_mapping (u :: us)).
    rewrite kept_all. exact Hgroups.
  - intros token pages t1 r t us Ht Htruthy Hpages Hs Hcall Hstop Hres Hus
      Hgroups fuel Hfuel.
    destruct (proj2 (Refresh_main_ends s Ht Htruthy Hpages Hs Hcall Hstop)
                fuel Hfuel) as [r0 [Hmain [_ [Hposted _]]]].
    exists r0. split; [exact Hmain|]. rewrite Hposted, Hres.
    destruct us as [|u us]; [congruence|].
    unfold posts_of, alerts. do 2 f_equal.
    apply (report_empty Refresh.is_excluded Refresh.LICENSE_MAPPING (u :: us)).
    exact Hgroups.
Qed.

(** Dave holds an excluded group only and Carol none: with a token, the
    refresh script posts the bare header. *)
Lemma alert_without_lines_witness :
  exists r0,
    Refresh.main (site_of (scripted [answer 200 NoRetryAfter quiet_page])
                    (TokenDict (Some (lit "token")))) 1
    = Some r0
    /\ posted r0 = [alert_text []].
Proof.
  refine (proj2 (@alert_without_lines
                   (site_of (scripted [answer 200 NoRetryAfter quiet_page])
                      (TokenDict (Some (lit "token")))))
            (Some (lit "token")) [] [] (Json quiet_page)
            [Request (users_url (scripted [answer 200 NoRetryAfter quiet_page])
                        0)]
            [dave; carol] _ _ _ _ _ _ _ _ _ 1 _).
  - reflexivity.
  - reflexivity.
  - constructor.
  - apply serves_nil.
  - vm_compute; reflexivity.
  - reflexivity.
  - reflexivity.
  - discriminate.
  - vm_compute; reflexivity.
  - simpl; lia.
Defined.
